(** * Mini Leave Management System: the accounting core of [app.py]

    A shallow embedding of the SQLite-backed core of [src/app.py]
    ([add_employee], [has_overlap], [apply_leave], [update_leave_status],
    [get_balance], [list_employees]) together with the properties that the
    design document states about it.

    Modelling conventions.
    - A table with an [INTEGER PRIMARY KEY AUTOINCREMENT] column is a finite
      map from the row id to the remaining columns, plus the counter that
      SQLite keeps in [sqlite_sequence].
    - A [datetime.date] is its proleptic Gregorian ordinal
      ([date.toordinal()]), an integer.  [date] comparison and the
      comparison of the ISO strings stored in the tables (fixed width
      [YYYY-MM-DD]) both coincide with the order of ordinals, and
      [(end - start).days] is the difference of ordinals.
    - [TEXT] columns are strings; [status] is an unconstrained string, as
      in the schema.
    - A [with closing(get_conn()) as conn, conn:] block is a transaction:
      its body runs in a state-and-exception monad over the store, and the
      block commits the body's writes when it returns and rolls them back
      when it raises. *)

From Stdlib Require Import Ascii String.
From stdpp Require Import gmap strings list fin_maps sorting.

Local Open Scope string_scope.
Local Open Scope Z_scope.

(** ** Rows and the store *)

(** A row of [employees], without its [id]. *)
Record employee := Employee {
  e_name : string;
  e_email : string;
  e_department : string;
  e_joining_date : Z;
  e_leave_balance : Z;
  e_created_at : Z
}.

(** A row of [leave_requests], without its [id]. *)
Record leave_request := LeaveRequest {
  r_employee_id : Z;
  r_start_date : Z;
  r_end_date : Z;
  r_reason : option string;
  r_status : string;
  r_created_at : Z
}.

(** The database file: both tables, their [sqlite_sequence] counters, and
    the reading of [CURRENT_TIMESTAMP]. *)
Record db := Db {
  employees : gmap Z employee;
  employees_seq : Z;
  leave_requests : gmap Z leave_request;
  leave_requests_seq : Z;
  current_timestamp : Z
}.

#[global] Instance employee_eq_dec : EqDecision employee.
Proof. solve_decision. Defined.
#[global] Instance leave_request_eq_dec : EqDecision leave_request.
Proof. solve_decision. Defined.

(** [init_db] on a fresh file: [CREATE TABLE IF NOT EXISTS] twice. *)
Definition init_db : db := Db ∅ 0 ∅ 0 0.

(** ** Exceptions and transactions *)

Inductive exn :=
| ValueError (msg : string)
| IntegrityError (msg : string)
| TypeError (msg : string).

#[global] Instance exn_eq_dec : EqDecision exn.
Proof. solve_decision. Defined.

(** The body of a [with ... conn:] block. *)
Definition tx (A : Type) : Type := db → (exn + A) * db.

#[global] Instance tx_ret : MRet tx := λ A a s, (inr a, s).
#[global] Instance tx_bind : MBind tx := λ A B f m s,
  match m s with
  | (inl e, s') => (inl e, s')
  | (inr a, s') => f a s'
  end.

Definition raise {A} (e : exn) : tx A := λ s, (inl e, s).
Definition query {A} (f : db → A) : tx A := λ s, (inr (f s), s).
Definition execute (f : db → db) : tx unit := λ s, (inr tt, f s).

(** [with closing(get_conn()) as conn, conn: body]: commit on return,
    roll back on exception. *)
Definition transaction {A} (body : tx A) : db → (exn + A) * db := λ s,
  match body s with
  | (inl e, _) => (inl e, s)
  | (inr a, s') => (inr a, s')
  end.

(** ** SQL statements used by the core *)

Definition set_employees (m : gmap Z employee) (seq : Z) (s : db) : db :=
  Db m seq (leave_requests s) (leave_requests_seq s) (current_timestamp s).
Definition set_leave_requests (m : gmap Z leave_request) (seq : Z) (s : db) : db :=
  Db (employees s) (employees_seq s) m seq (current_timestamp s).

(** The largest row id of a table, 0 for an empty one. *)
Definition max_rowid {A} (m : gmap Z A) : Z :=
  foldr Z.max 0 (map_to_list m).*1.

(** AUTOINCREMENT: one more than the largest id that ever existed. *)
Definition next_rowid {A} (seq : Z) (m : gmap Z A) : Z :=
  Z.max seq (max_rowid m) + 1.

(** [SELECT ... FROM employees WHERE id = ?] followed by [fetchone()]. *)
Definition select_employee (emp_id : Z) : tx (option employee) :=
  query (λ s, employees s !! emp_id).

(** [SELECT ... FROM leave_requests WHERE id = ?] followed by [fetchone()]. *)
Definition select_leave_request (leave_id : Z) : tx (option leave_request) :=
  query (λ s, leave_requests s !! leave_id).

(** [INSERT INTO employees (name, email, department, joining_date,
    leave_balance)]: [email] is [UNIQUE]; [id] and [created_at] take their
    defaults. *)
Definition insert_employee (name email department : string)
    (joining_date leave_balance : Z) : tx unit := λ s,
  if decide (map_Exists (λ _ e, e_email e = email) (employees s))
  then (inl (IntegrityError "UNIQUE constraint failed: employees.email"), s)
  else
    let id := next_rowid (employees_seq s) (employees s) in
    let row := Employee name email department joining_date leave_balance
                 (current_timestamp s) in
    (inr tt, set_employees (<[id := row]> (employees s)) id s).

(** [INSERT INTO leave_requests (employee_id, start_date, end_date, reason,
    status) VALUES (?, ?, ?, ?, 'PENDING')]: [employee_id] is a foreign key
    and [PRAGMA foreign_keys = ON]. *)
Definition insert_leave_request (employee_id start_date end_date : Z)
    (reason : option string) : tx unit := λ s,
  if decide (employees s !! employee_id = None)
  then (inl (IntegrityError "FOREIGN KEY constraint failed"), s)
  else
    let id := next_rowid (leave_requests_seq s) (leave_requests s) in
    let row := LeaveRequest employee_id start_date end_date reason "PENDING"
                 (current_timestamp s) in
    (inr tt, set_leave_requests (<[id := row]> (leave_requests s)) id s).

Definition sub_leave_balance (needed : Z) (e : employee) : employee :=
  Employee (e_name e) (e_email e) (e_department e) (e_joining_date e)
    (e_leave_balance e - needed) (e_created_at e).

(** [UPDATE employees SET leave_balance = leave_balance - ? WHERE id = ?] *)
Definition update_leave_balance (needed employee_id : Z) : tx unit :=
  execute (λ s,
    set_employees (alter (sub_leave_balance needed) employee_id (employees s))
      (employees_seq s) s).

Definition set_status (new_status : string) (r : leave_request) : leave_request :=
  LeaveRequest (r_employee_id r) (r_start_date r) (r_end_date r) (r_reason r)
    new_status (r_created_at r).

(** [UPDATE leave_requests SET status = ? WHERE id = ?] *)
Definition update_status (new_status : string) (leave_id : Z) : tx unit :=
  execute (λ s,
    set_leave_requests (alter (set_status new_status) leave_id (leave_requests s))
      (leave_requests_seq s) s).

(** The row filter of [has_overlap]'s query. *)
Definition overlaps (employee_id start_date end_date : Z) (r : leave_request) : Prop :=
  r_employee_id r = employee_id
  ∧ (r_status r = "PENDING" ∨ r_status r = "APPROVED")
  ∧ r_start_date r ≤ end_date
  ∧ r_end_date r >= start_date.

#[global] Instance overlaps_dec eid sd ed r : Decision (overlaps eid sd ed r).
Proof. unfold overlaps. apply _. Defined.

(** ** The functions of [app.py] *)

Definition days_inclusive (start end_ : Z) : Z := (end_ - start) + 1.

Definition has_overlap (employee_id start_date end_date : Z) : tx bool :=
  query (λ s,
    bool_decide (map_Exists (λ _ r, overlaps employee_id start_date end_date r)
                   (leave_requests s))).

Definition add_employee (name email department : string)
    (joining_date leave_balance : Z) : db → (exn + unit) * db :=
  transaction (insert_employee name email department joining_date leave_balance).

Definition apply_leave (employee_id start_date end_date : Z)
    (reason : option string) : db → (exn + unit) * db :=
  transaction (
    emp ← select_employee employee_id;
    match emp with
    | None => raise (ValueError "Employee not found")
    | Some emp =>
      let joining_date := e_joining_date emp in
      let balance := e_leave_balance emp in
      if decide (end_date < start_date)
      then raise (ValueError "End date cannot be before start date")
      else if decide (start_date < joining_date)
      then raise (ValueError "Cannot apply for leave before joining date")
      else
        ov ← has_overlap employee_id start_date end_date;
        if ov : bool
        then raise (ValueError "Overlapping leave request exists (pending or approved)")
        else
          let req_days := days_inclusive start_date end_date in
          if decide (req_days ≤ 0)
          then raise (ValueError "Invalid duration")
          else if decide (req_days > balance)
          then raise (ValueError "Insufficient leave balance")
          else insert_leave_request employee_id start_date end_date reason
    end).

Definition update_leave_status (leave_id : Z) (new_status : string)
    : db → (exn + unit) * db :=
  transaction (
    row ← select_leave_request leave_id;
    match row with
    | None => raise (ValueError "Leave request not found")
    | Some row =>
      let employee_id := r_employee_id row in
      let start_date := r_start_date row in
      let end_date := r_end_date row in
      let curr_status := r_status row in
      if decide (curr_status ≠ "PENDING")
      then raise (ValueError "Only pending requests can be updated")
      else
        (if decide (new_status = "APPROVED")
         then
           cur2 ← select_employee employee_id;
           match cur2 with
           | None => raise (TypeError "'NoneType' object is not subscriptable")
           | Some e =>
             let bal := e_leave_balance e in
             let needed := days_inclusive start_date end_date in
             if decide (needed > bal)
             then raise (ValueError "Insufficient balance at approval time")
             else update_leave_balance needed employee_id
           end
         else mret tt);;
        update_status new_status leave_id
    end).

Definition get_balance (emp_id : Z) : db → (exn + Z) * db :=
  transaction (
    row ← select_employee emp_id;
    match row with
    | None => raise (ValueError "Employee not found")
    | Some e => mret (e_leave_balance e)
    end).

(** ** The query layer: [list_employees] *)

(** Lower-casing of an ASCII letter; other characters are unchanged. *)
Definition ascii_lower (c : ascii) : ascii :=
  let n := N_of_ascii c in
  if decide (65 ≤ n ∧ n ≤ 90)%N then ascii_of_N (n + 32) else c.

(** SQLite's [LOWER()], which lowers the ASCII letters of a UTF-8 text and
    nothing else; and Python's [str.lower] on an ASCII string.  On a string
    with non-ASCII letters [str.lower] lowers those too, which this
    function does not: statements about a filter [q] that go through
    [q.lower()] therefore take [q] to be ASCII ([ascii_only]). *)
Fixpoint lower (s : string) : string :=
  match s with
  | EmptyString => EmptyString
  | String c s' => String (ascii_lower c) (lower s')
  end.

(** SQLite's [LIKE] without [ESCAPE]: [%] matches any run of characters,
    [_] matches exactly one, any other character matches itself up to the
    case of ASCII letters.  Strings are the UTF-8 bytes of the text: [_]
    is exact on ASCII text, and SQLite reads both operands up to their
    first NUL and refuses a pattern of more than 50000 bytes
    ([nul_free], [literal_filter]). *)
Fixpoint like (pattern : string) : string → bool :=
  match pattern with
  | EmptyString => λ s, bool_decide (s = EmptyString)
  | String c p =>
    if decide (c = "%"%char) then
      fix skip (s : string) : bool :=
        like p s || match s with
                    | EmptyString => false
                    | String _ s' => skip s'
                    end
    else if decide (c = "_"%char) then
      λ s, match s with
           | EmptyString => false
           | String _ s' => like p s'
           end
    else
      λ s, match s with
           | EmptyString => false
           | String d s' =>
             bool_decide (ascii_lower c = ascii_lower d) && like p s'
           end
  end.

(** [ORDER BY id DESC] *)
Definition id_desc (a b : Z * employee) : Prop := b.1 ≤ a.1.

#[global] Instance id_desc_dec : RelDecision id_desc.
Proof. intros a b. unfold id_desc. apply _. Defined.

#[global] Instance id_desc_total : Total id_desc.
Proof. intros a b. unfold id_desc. lia. Qed.

#[global] Instance id_desc_trans : Transitive id_desc.
Proof. intros a b c. unfold id_desc. lia. Qed.

Definition order_by_id_desc (rows : list (Z * employee)) : list (Z * employee) :=
  merge_sort id_desc rows.

(** The [WHERE] clause of the filtered query, for the bound parameter
    [pattern]: [LOWER(name) LIKE ? OR LOWER(email) LIKE ?]. *)
Definition where_like (pattern : string) (row : Z * employee) : bool :=
  like pattern (lower (e_name row.2)) || like pattern (lower (e_email row.2)).

Definition list_employees (q : option string) : tx (list (Z * employee)) :=
  query (λ s,
    let rows := map_to_list (employees s) in
    match q with
    | Some q =>
      if decide (q = "")
      then order_by_id_desc rows
      else order_by_id_desc
             (List.filter (where_like ("%" +:+ lower q +:+ "%")) rows)
    | None => order_by_id_desc rows
    end).

(** ** Runs of the application *)

(** What the presentation layer, and the clock, can do to the store. *)
Inductive op :=
| AddEmployee (name email department : string) (joining_date leave_balance : Z)
| ApplyLeave (employee_id start_date end_date : Z) (reason : option string)
| UpdateLeaveStatus (leave_id : Z) (new_status : string)
| ClockTick (now : Z).

(** The store after an operation; a raised exception is caught by the
    caller and the store is as the rolled-back transaction left it. *)
Definition run (o : op) (s : db) : db :=
  match o with
  | AddEmployee n e d j b => (add_employee n e d j b s).2
  | ApplyLeave i sd ed r => (apply_leave i sd ed r s).2
  | UpdateLeaveStatus i st => (update_leave_status i st s).2
  | ClockTick now =>
    Db (employees s) (employees_seq s) (leave_requests s) (leave_requests_seq s) now
  end.

(** States reachable from a fresh database by operations satisfying [P]. *)
Inductive reachable_by (P : op → Prop) : db → Prop :=
| reachable_init : reachable_by P init_db
| reachable_step s o : reachable_by P s → P o → reachable_by P (run o s).

Definition reachable : db → Prop := reachable_by (λ _, True).

(** Running a whole script of operations. *)
Definition run_all (os : list op) (s : db) : db := foldl (λ s o, run o s) s os.

(** ** The error kinds of the design document *)

Definition EmployeeNotFound : exn := ValueError "Employee not found".
Definition RequestNotFound : exn := ValueError "Leave request not found".
Definition InvalidRange : exn := ValueError "End date cannot be before start date".
Definition BeforeJoining : exn :=
  ValueError "Cannot apply for leave before joining date".
Definition OverlappingRequest : exn :=
  ValueError "Overlapping leave request exists (pending or approved)".
Definition InvalidDuration : exn := ValueError "Invalid duration".
Definition InsufficientBalance : exn := ValueError "Insufficient leave balance".
Definition InsufficientBalanceAtApproval : exn :=
  ValueError "Insufficient balance at approval time".
Definition NotPending : exn := ValueError "Only pending requests can be updated".

(** ** Predicates of the design document *)

(** A request that still blocks its dates. *)
Definition active (r : leave_request) : Prop :=
  r_status r = "PENDING" ∨ r_status r = "APPROVED".

(** Inclusive-inclusive intersection of the date ranges of two requests. *)
Definition ranges_overlap (a b : leave_request) : Prop :=
  r_start_date a ≤ r_end_date b ∧ r_end_date a >= r_start_date b.

(** The active requests of each employee are pairwise disjoint. *)
Definition no_overlap (s : db) : Prop :=
  ∀ i j a b,
    i ≠ j →
    leave_requests s !! i = Some a →
    leave_requests s !! j = Some b →
    r_employee_id a = r_employee_id b →
    active a → active b →
    ¬ ranges_overlap a b.

(** Every balance is non-negative. *)
Definition balances_nonneg (s : db) : Prop :=
  ∀ id e, employees s !! id = Some e → 0 ≤ e_leave_balance e.

(** Registrations as the form issues them: the initial balance widget has
    [min_value=0]. *)
Definition nonneg_initial_balance (o : op) : Prop :=
  match o with
  | AddEmployee _ _ _ _ leave_balance => 0 ≤ leave_balance
  | _ => True
  end.

(** "[s] contains [q] as a case-insensitive substring", in the words of
    the design document: some position of [s] starts with [q], letters
    compared up to case. *)
Fixpoint starts_with_nocase (q s : string) : bool :=
  match q, s with
  | EmptyString, _ => true
  | String _ _, EmptyString => false
  | String c q', String d s' =>
    bool_decide (ascii_lower c = ascii_lower d) && starts_with_nocase q' s'
  end.

Fixpoint substring_nocase (q s : string) : bool :=
  starts_with_nocase q s
  || match s with
     | EmptyString => false
     | String _ s' => substring_nocase q s'
     end.

(** The employees that [listEmployees] is to return for a filter. *)
Definition matches_filter (q : option string) (e : employee) : bool :=
  match q with
  | None => true
  | Some q => substring_nocase q (e_name e) || substring_nocase q (e_email e)
  end.

(** A filter in which no character is a [LIKE] wildcard. *)
Fixpoint wildcard_free (q : string) : Prop :=
  match q with
  | EmptyString => True
  | String c q' => c ≠ "%"%char ∧ c ≠ "_"%char ∧ wildcard_free q'
  end.

(** Text without a NUL character. *)
Fixpoint nul_free (t : string) : Prop :=
  match t with
  | EmptyString => True
  | String c t' => c ≠ Ascii.zero ∧ nul_free t'
  end.

#[global] Instance nul_free_dec t : Decision (nul_free t).
Proof. induction t as [|c t IH]; simpl; apply _. Defined.

(** Text made of ASCII characters only. *)
Fixpoint ascii_only (t : string) : Prop :=
  match t with
  | EmptyString => True
  | String c t' => (N_of_ascii c < 128)%N ∧ ascii_only t'
  end.

#[global] Instance ascii_only_dec t : Decision (ascii_only t).
Proof. induction t as [|c t IH]; simpl; apply _. Defined.

(** A filter that [list_employees] passes to [LIKE] as a literal: ASCII,
    without NUL, without [%] and [_], and short enough for the pattern
    [%q%] to stay within SQLite's limit of 50000 bytes. *)
Definition literal_filter (q : string) : Prop :=
  wildcard_free q ∧ ascii_only q ∧ nul_free q
  ∧ Z.of_nat (String.length q) + 2 ≤ 50000.

(** No name and no email of the store holds a NUL character. *)
Definition text_nul_free (s : db) : Prop :=
  map_Forall (λ _ e, nul_free (e_name e) ∧ nul_free (e_email e)) (employees s).

(** ** The rest of the query layer *)

(** [get_employee]: the row with its [id], as the dictionary that
    [dict(zip(cols, row))] builds, or [None] when no row has that id. *)
Definition get_employee (emp_id : Z) : tx (option (Z * employee)) :=
  query (λ s,
    match employees s !! emp_id with
    | None => None
    | Some row => Some (emp_id, row)
    end).

(** [ORDER BY created_at DESC].  SQLite does not fix the order of rows
    with equal [created_at]; no statement below depends on it. *)
Definition created_at_desc (a b : Z * leave_request) : Prop :=
  r_created_at b.2 ≤ r_created_at a.2.

#[global] Instance created_at_desc_dec : RelDecision created_at_desc.
Proof. intros a b. unfold created_at_desc. apply _. Defined.

#[global] Instance created_at_desc_total : Total created_at_desc.
Proof. intros a b. unfold created_at_desc. lia. Qed.

#[global] Instance created_at_desc_trans : Transitive created_at_desc.
Proof. intros a b c. unfold created_at_desc. lia. Qed.

(** The [WHERE] clause that [list_leaves] assembles: [employee_id = ?]
    when [employee_id is not None], [status = ?] when [status] is truthy
    (neither [None] nor the empty string), joined by [AND].  An
    [employee_id] is taken to be one that SQLite can bind, a 64-bit
    integer, as every id of the tables is; binding a larger Python integer
    raises [OverflowError], which is outside this embedding. *)
Definition where_leaves (employee_id : option Z) (status : option string)
    (row : Z * leave_request) : bool :=
  match employee_id with
  | Some i => bool_decide (r_employee_id row.2 = i)
  | None => true
  end
  && match status with
     | Some st => if decide (st = "") then true
                  else bool_decide (r_status row.2 = st)
     | None => true
     end.

Definition list_leaves (employee_id : option Z) (status : option string)
    : tx (list (Z * leave_request)) :=
  query (λ s,
    merge_sort created_at_desc
      (List.filter (where_leaves employee_id status)
         (map_to_list (leave_requests s)))).

(** ** Further predicates on the store *)

(** The ids of a table are exactly [1 .. seq]. *)
Definition table_dense {A} (seq : Z) (m : gmap Z A) : Prop :=
  0 ≤ seq ∧ ∀ id, is_Some (m !! id) ↔ 1 ≤ id ≤ seq.

Definition ids_dense (s : db) : Prop :=
  table_dense (employees_seq s) (employees s)
  ∧ table_dense (leave_requests_seq s) (leave_requests s).

(** Every request belongs to an employee, starts on or after the joining
    date and does not end before it starts. *)
Definition requests_well_formed (s : db) : Prop :=
  ∀ id r, leave_requests s !! id = Some r →
    ∃ emp, employees s !! r_employee_id r = Some emp
           ∧ e_joining_date emp ≤ r_start_date r
           ∧ r_start_date r ≤ r_end_date r.

(** No two employees share an email. *)
Definition emails_unique (s : db) : Prop :=
  ∀ i j a b,
    employees s !! i = Some a → employees s !! j = Some b →
    e_email a = e_email b → i = j.

(** Two rows of [employees] that differ at most in [leave_balance]. *)
Definition same_person (a b : employee) : Prop :=
  e_name a = e_name b ∧ e_email a = e_email b
  ∧ e_department a = e_department b
  ∧ e_joining_date a = e_joining_date b
  ∧ e_created_at a = e_created_at b.

(** Two rows of [leave_requests] that differ at most in [status]. *)
Definition same_request (a b : leave_request) : Prop :=
  r_employee_id a = r_employee_id b ∧ r_start_date a = r_start_date b
  ∧ r_end_date a = r_end_date b ∧ r_reason a = r_reason b
  ∧ r_created_at a = r_created_at b.

(** The days of a request that count against [employee_id]: its inclusive
    length when it is an APPROVED request of that employee, else 0. *)
Definition approved_span (employee_id : Z) (r : leave_request) : Z :=
  if decide (r_employee_id r = employee_id ∧ r_status r = "APPROVED")
  then days_inclusive (r_start_date r) (r_end_date r)
  else 0.

(** The approved days of an employee, summed over a list of rows and over
    the [leave_requests] table. *)
Definition sum_approved (employee_id : Z) (rows : list (Z * leave_request)) : Z :=
  foldr (λ row acc, approved_span employee_id row.2 + acc) 0 rows.

Definition approved_days (employee_id : Z) (s : db) : Z :=
  sum_approved employee_id (map_to_list (leave_requests s)).

(** The row that a successful [apply_leave] inserts. *)
Definition pending_row (s : db) (employee_id start_date end_date : Z)
    (reason : option string) : leave_request :=
  LeaveRequest employee_id start_date end_date reason "PENDING"
    (current_timestamp s).

(** A concrete run used to exercise the statements below. *)
Definition demo : db :=
  run_all [AddEmployee "Bob" "bob@x.org" "HR" 100 24;
           AddEmployee "Alice" "alice@x.org" "Sales" 100 5;
           ApplyLeave 1 131 135 None;
           ApplyLeave 2 140 142 (Some "Vacation");
           ApplyLeave 2 150 152 None;
           UpdateLeaveStatus 2 "APPROVED"] init_db.

(** The scenario of the design document: an employee who joined on
    2024-01-01 (ordinal 738886) with balance 24 asks for 2024-02-01 to
    2024-02-05 (ordinals 738917 to 738921). *)
Definition scenario : db :=
  run_all [AddEmployee "Jane Doe" "jane.doe@company.com" "Engineering" 738886 24;
           ApplyLeave 1 738917 738921 None] init_db.

(** Unfolding of the transaction monad. *)
Ltac unfold_tx :=
  unfold transaction, mbind, tx_bind, mret, tx_ret, raise, query, execute; simpl.

(** * Properties *)

(** ** Transactions and row ids *)

Lemma transaction_rollback {A} (body : tx A) s e s' :
  transaction body s = (inl e, s') → s' = s.
Proof.
  unfold transaction. destruct (body s) as [[e'|a] s'']; congruence.
Qed.

Lemma foldr_max_ge (l : list Z) k : k ∈ l → k ≤ foldr Z.max 0 l.
Proof.
  induction l as [|x l IH]; intros Hk.
  - by apply elem_of_nil in Hk.
  - apply elem_of_cons in Hk as [->|Hk]; simpl; [lia|].
    specialize (IH Hk). lia.
Qed.

Lemma max_rowid_ge {A} (m : gmap Z A) k v : m !! k = Some v → k ≤ max_rowid m.
Proof.
  intros Hk. apply foldr_max_ge, list_elem_of_fmap.
  exists (k, v). split; [done|]. by apply elem_of_map_to_list.
Qed.

Lemma next_rowid_fresh {A} seq (m : gmap Z A) : m !! next_rowid seq m = None.
Proof.
  destruct (m !! next_rowid seq m) as [v|] eqn:Hk; [|done].
  apply max_rowid_ge in Hk. unfold next_rowid in Hk. lia.
Qed.

(** ** [apply_leave] *)

(** [apply_leave] as the cascade of the five checks of the design
    document: neither the duration check nor the foreign key can fail. *)
Lemma apply_leave_cascade s employee_id start_date end_date reason :
  apply_leave employee_id start_date end_date reason s =
  match employees s !! employee_id with
  | None => (inl EmployeeNotFound, s)
  | Some emp =>
    if decide (end_date < start_date) then (inl InvalidRange, s)
    else if decide (start_date < e_joining_date emp) then (inl BeforeJoining, s)
    else if decide (map_Exists (λ _ r, overlaps employee_id start_date end_date r)
                      (leave_requests s))
    then (inl OverlappingRequest, s)
    else if decide (days_inclusive start_date end_date > e_leave_balance emp)
    then (inl InsufficientBalance, s)
    else
      let id := next_rowid (leave_requests_seq s) (leave_requests s) in
      (inr tt,
       Db (employees s) (employees_seq s)
          (<[id := pending_row s employee_id start_date end_date reason]>
             (leave_requests s))
          id (current_timestamp s))
  end.
Proof.
  unfold apply_leave, select_employee, has_overlap, insert_leave_request.
  unfold_tx.
  destruct (employees s !! employee_id) as [emp|] eqn:Hemp; [|done].
  destruct (decide (end_date < start_date)); [done|].
  destruct (decide (start_date < e_joining_date emp)); [done|].
  unfold_tx.
  destruct (decide (map_Exists _ _)) as [Hov|Hov].
  - by rewrite bool_decide_eq_true_2.
  - rewrite bool_decide_eq_false_2 by done.
    destruct (decide (days_inclusive start_date end_date ≤ 0)) as [Hd|Hd].
    { unfold days_inclusive in Hd. lia. }
    destruct (decide (days_inclusive start_date end_date > e_leave_balance emp));
      [done|].
    unfold_tx. rewrite Hemp. by rewrite decide_False.
Qed.

(** C4: [apply_leave] checks, in this order, that the employee exists,
    that the range is not reversed, that it does not start before the
    joining date, that it overlaps no pending or approved request of the
    employee, and that its inclusive length fits the balance; the first
    check that fails decides the error and nothing is written.  When all
    pass, one row with status PENDING is inserted under a fresh id and the
    [employees] table, hence every balance, is as before. *)
Theorem apply_leave_check_order (s : db) (employee_id start_date end_date : Z)
    (reason : option string) :
  let res := apply_leave employee_id start_date end_date reason s in
  (employees s !! employee_id = None → res = (inl EmployeeNotFound, s))
  ∧ (∀ emp, employees s !! employee_id = Some emp →
      (end_date < start_date → res = (inl InvalidRange, s))
      ∧ (start_date ≤ end_date → start_date < e_joining_date emp →
         res = (inl BeforeJoining, s))
      ∧ (start_date ≤ end_date → e_joining_date emp ≤ start_date →
         (∃ id r, leave_requests s !! id = Some r
                  ∧ overlaps employee_id start_date end_date r) →
         res = (inl OverlappingRequest, s))
      ∧ (start_date ≤ end_date → e_joining_date emp ≤ start_date →
         ¬ (∃ id r, leave_requests s !! id = Some r
                    ∧ overlaps employee_id start_date end_date r) →
         e_leave_balance emp < end_date - start_date + 1 →
         res = (inl InsufficientBalance, s))
      ∧ (start_date ≤ end_date → e_joining_date emp ≤ start_date →
         ¬ (∃ id r, leave_requests s !! id = Some r
                    ∧ overlaps employee_id start_date end_date r) →
         end_date - start_date + 1 ≤ e_leave_balance emp →
         ∃ id, leave_requests s !! id = None
               ∧ res = (inr tt,
                        Db (employees s) (employees_seq s)
                           (<[id := LeaveRequest employee_id start_date end_date
                                      reason "PENDING" (current_timestamp s)]>
                              (leave_requests s))
                           id (current_timestamp s)))).
Proof.
  intros res. subst res. rewrite apply_leave_cascade. split.
  - by intros ->.
  - intros emp ->. unfold days_inclusive.
    split; [|split; [|split; [|split]]].
    + intros ?. by rewrite decide_True.
    + intros ??. rewrite decide_False by lia. by rewrite decide_True.
    + intros ?? Hov. rewrite !decide_False by lia.
      destruct (decide (map_Exists _ _)) as [_|Hx]; [done|by destruct Hx].
    + intros ?? Hov ?. rewrite !decide_False by lia.
      destruct (decide (map_Exists _ _)) as [Hx|_]; [by destruct Hov|].
      rewrite decide_True by lia. done.
    + intros ?? Hov ?. rewrite !decide_False by lia.
      destruct (decide (map_Exists _ _)) as [Hx|_]; [by destruct Hov|].
      rewrite decide_False by lia.
      eexists. split; [apply next_rowid_fresh|done].
Qed.

Lemma apply_leave_check_order_witness :
  apply_leave 7 131 135 None demo = (inl EmployeeNotFound, demo)
  ∧ apply_leave 1 135 131 None demo = (inl InvalidRange, demo)
  ∧ apply_leave 1 90 95 None demo = (inl BeforeJoining, demo)
  ∧ apply_leave 1 133 134 None demo = (inl OverlappingRequest, demo)
  ∧ apply_leave 2 160 165 None demo = (inl InsufficientBalance, demo)
  ∧ ∃ id, leave_requests demo !! id = None
          ∧ apply_leave 2 160 161 None demo =
            (inr tt,
             Db (employees demo) (employees_seq demo)
                (<[id := LeaveRequest 2 160 161 None "PENDING"
                           (current_timestamp demo)]> (leave_requests demo))
                id (current_timestamp demo)).
Proof.
  assert (He1 : employees demo !! 1 =
                Some (Employee "Bob" "bob@x.org" "HR" 100 24 0))
    by (vm_compute; reflexivity).
  assert (He2 : employees demo !! 2 =
                Some (Employee "Alice" "alice@x.org" "Sales" 100 2 0))
    by (vm_compute; reflexivity).
  assert (Hfree : ∀ sd ed, 155 ≤ sd →
            ¬ (∃ id r, leave_requests demo !! id = Some r ∧ overlaps 2 sd ed r)).
  { intros sd ed Hsd (id & r & Hr & Ho).
    assert (Hall : map_Forall (λ _ r, r_end_date r < 155) (leave_requests demo)).
    { apply (bool_decide_unpack _). vm_compute. exact I. }
    apply Hall in Hr. destruct Ho as (_ & _ & _ & ?). lia. }
  pose proof (apply_leave_check_order demo 7 131 135 None) as [H0 _].
  pose proof (apply_leave_check_order demo 1 135 131 None) as [_ H1].
  pose proof (apply_leave_check_order demo 1 90 95 None) as [_ H2].
  pose proof (apply_leave_check_order demo 1 133 134 None) as [_ H3].
  pose proof (apply_leave_check_order demo 2 160 165 None) as [_ H4].
  pose proof (apply_leave_check_order demo 2 160 161 None) as [_ H5].
  destruct (H1 _ He1) as (H1' & _).
  destruct (H2 _ He1) as (_ & H2' & _).
  destruct (H3 _ He1) as (_ & _ & H3' & _).
  destruct (H4 _ He2) as (_ & _ & _ & H4' & _).
  destruct (H5 _ He2) as (_ & _ & _ & _ & H5').
  cbn [e_joining_date e_leave_balance] in *.
  split; [|split; [|split; [|split; [|split]]]].
  - apply H0. vm_compute. reflexivity.
  - apply H1'. lia.
  - apply H2'; lia.
  - apply H3'; [lia|lia|].
    exists 1, (LeaveRequest 1 131 135 None "PENDING" 0).
    split; [vm_compute; reflexivity|].
    unfold overlaps; cbn. split; [done|]. split; [by left|lia].
  - apply H4'; [lia|lia| |lia]. apply Hfree. lia.
  - apply H5'; [lia|lia| |lia]. apply Hfree. lia.
Defined.

(** C5, as stated, fails: on a fresh database, where employee 1 does not
    exist, [apply_leave 1 7 5] has a reversed range and is refused with
    "Employee not found", not with the reversed-range error. *)
Lemma reversed_range_unknown_employee :
  5 < 7
  ∧ apply_leave 1 7 5 None init_db = (inl EmployeeNotFound, init_db)
  ∧ (apply_leave 1 7 5 None init_db).1 ≠ inl InvalidRange.
Proof. split; [lia|]. split; [reflexivity|]. vm_compute. discriminate. Qed.

(** C5, amended: for an employee that exists, a request whose end date
    precedes its start date is refused with the reversed-range error,
    whatever the rest of the store holds, and nothing is written. *)
Theorem reversed_range_rejected (s : db) (employee_id start_date end_date : Z)
    (reason : option string) (emp : employee) :
  employees s !! employee_id = Some emp →
  end_date < start_date →
  apply_leave employee_id start_date end_date reason s = (inl InvalidRange, s).
Proof.
  intros Hemp Hlt. rewrite apply_leave_cascade, Hemp. by rewrite decide_True.
Qed.

Lemma reversed_range_rejected_witness :
  apply_leave 1 135 131 (Some "Medical") demo = (inl InvalidRange, demo).
Proof.
  apply (reversed_range_rejected demo 1 135 131 (Some "Medical")
           (Employee "Bob" "bob@x.org" "HR" 100 24 0)).
  - vm_compute. reflexivity.
  - lia.
Defined.

(** C9: [apply_leave] never raises "Invalid duration": once the
    reversed-range check has passed, the inclusive day count is at
    least 1. *)
Theorem invalid_duration_unreachable :
  (∀ start_date end_date : Z,
     ¬ end_date < start_date → 1 ≤ days_inclusive start_date end_date)
  ∧ (∀ s employee_id start_date end_date reason,
       (apply_leave employee_id start_date end_date reason s).1
       ≠ inl InvalidDuration).
Proof.
  split.
  - intros sd ed H. unfold days_inclusive. lia.
  - intros s eid sd ed reason. rewrite apply_leave_cascade.
    destruct (employees s !! eid) as [emp|]; [|discriminate].
    repeat case_decide; simpl; discriminate.
Qed.

Lemma invalid_duration_unreachable_witness :
  1 ≤ days_inclusive 131 131
  ∧ (apply_leave 1 131 131 None demo).1 ≠ inl InvalidDuration.
Proof.
  split.
  - apply (proj1 invalid_duration_unreachable 131 131). lia.
  - apply (proj2 invalid_duration_unreachable demo 1 131 131 None).
Defined.

(** ** [update_leave_status] *)

Lemma alter_lookup_Some {A} (f : A → A) (m : gmap Z A) k x :
  m !! k = Some x → alter f k m = <[k := f x]> m.
Proof.
  intros Hk. apply map_eq. intros j.
  rewrite lookup_alter, lookup_insert.
  case_decide; subst; [by rewrite Hk|done].
Qed.

(** [update_leave_status] as a cascade of its checks. *)
Lemma update_leave_status_cascade s leave_id new_status :
  update_leave_status leave_id new_status s =
  match leave_requests s !! leave_id with
  | None => (inl RequestNotFound, s)
  | Some row =>
    if decide (r_status row ≠ "PENDING") then (inl NotPending, s)
    else if decide (new_status = "APPROVED") then
      match employees s !! r_employee_id row with
      | None => (inl (TypeError "'NoneType' object is not subscriptable"), s)
      | Some e =>
        let needed := days_inclusive (r_start_date row) (r_end_date row) in
        if decide (needed > e_leave_balance e)
        then (inl InsufficientBalanceAtApproval, s)
        else (inr tt,
              Db (<[r_employee_id row := sub_leave_balance needed e]> (employees s))
                 (employees_seq s)
                 (<[leave_id := set_status new_status row]> (leave_requests s))
                 (leave_requests_seq s) (current_timestamp s))
      end
    else (inr tt,
          Db (employees s) (employees_seq s)
             (<[leave_id := set_status new_status row]> (leave_requests s))
             (leave_requests_seq s) (current_timestamp s))
  end.
Proof.
  unfold update_leave_status, select_leave_request, select_employee,
    update_leave_balance, update_status.
  unfold_tx.
  destruct (leave_requests s !! leave_id) as [row|] eqn:Hrow; [|done].
  destruct (decide (r_status row ≠ "PENDING")); [done|].
  destruct (decide (new_status = "APPROVED")) as [->|Hne]; unfold_tx.
  - destruct (employees s !! r_employee_id row) as [e|] eqn:He; [|done].
    destruct (decide (_ > _)); [done|]. unfold_tx.
    unfold set_leave_requests, set_employees; simpl.
    by rewrite (alter_lookup_Some _ _ _ _ He), (alter_lookup_Some _ _ _ _ Hrow).
  - unfold set_leave_requests; simpl.
    by rewrite (alter_lookup_Some _ _ _ _ Hrow).
Qed.

(** C2: approving a PENDING request whose inclusive length is at most the
    balance of its employee succeeds, takes exactly that length off that
    employee's balance (no other column, no other employee) and marks the
    request APPROVED (no other column, no other request); and an approval
    that raises, for whatever reason, leaves the whole store as it was. *)
Theorem approve_pending :
  (∀ (s : db) (leave_id : Z) (row : leave_request) (emp : employee),
     leave_requests s !! leave_id = Some row →
     r_status row = "PENDING" →
     employees s !! r_employee_id row = Some emp →
     r_end_date row - r_start_date row + 1 ≤ e_leave_balance emp →
     let span := r_end_date row - r_start_date row + 1 in
     let res := update_leave_status leave_id "APPROVED" s in
     res.1 = inr tt
     ∧ employees res.2 =
         <[r_employee_id row :=
             Employee (e_name emp) (e_email emp) (e_department emp)
               (e_joining_date emp) (e_leave_balance emp - span)
               (e_created_at emp)]> (employees s)
     ∧ leave_requests res.2 =
         <[leave_id :=
             LeaveRequest (r_employee_id row) (r_start_date row)
               (r_end_date row) (r_reason row) "APPROVED" (r_created_at row)]>
           (leave_requests s)
     ∧ e_leave_balance <$> employees res.2 !! r_employee_id row
       = Some (e_leave_balance emp - span)
     ∧ r_status <$> leave_requests res.2 !! leave_id = Some "APPROVED")
  ∧ (∀ (s s' : db) (leave_id : Z) (e : exn),
       update_leave_status leave_id "APPROVED" s = (inl e, s') → s' = s).
Proof.
  split.
  - intros s leave_id row emp Hrow Hst Hemp Hle span res. subst res.
    rewrite update_leave_status_cascade, Hrow.
    rewrite decide_False by (intros ?; congruence).
    rewrite decide_True by done. rewrite Hemp. simpl.
    rewrite decide_False by (unfold days_inclusive; lia). simpl.
    unfold sub_leave_balance, set_status, days_inclusive. fold span.
    repeat split; try done.
    + by rewrite lookup_insert_eq.
    + by rewrite lookup_insert_eq.
  - intros s s' leave_id e H. by apply transaction_rollback in H.
Qed.

Lemma approve_pending_witness :
  (update_leave_status 1 "APPROVED" demo).1 = inr tt
  ∧ e_leave_balance <$> employees (update_leave_status 1 "APPROVED" demo).2 !! 1
    = Some 19
  ∧ r_status <$> leave_requests (update_leave_status 1 "APPROVED" demo).2 !! 1
    = Some "APPROVED"
  ∧ (update_leave_status 3 "APPROVED" demo).2 = demo.
Proof.
  destruct approve_pending as [Hok Hfail].
  destruct (Hok demo 1 (LeaveRequest 1 131 135 None "PENDING" 0)
              (Employee "Bob" "bob@x.org" "HR" 100 24 0))
    as (H1 & _ & _ & H2 & H3).
  - vm_compute. reflexivity.
  - reflexivity.
  - vm_compute. reflexivity.
  - simpl. lia.
  - split; [exact H1|]. split; [exact H2|]. split; [exact H3|].
    apply (Hfail demo _ 3 InsufficientBalanceAtApproval).
    vm_compute. reflexivity.
Defined.

(** C6: deciding a request that exists and is not PENDING raises
    "Only pending requests can be updated", whatever the decision, and
    leaves the whole store (all balances, all statuses) as it was. *)
Theorem decide_non_pending (s : db) (leave_id : Z) (row : leave_request)
    (new_status : string) :
  leave_requests s !! leave_id = Some row →
  r_status row ≠ "PENDING" →
  update_leave_status leave_id new_status s = (inl NotPending, s).
Proof.
  intros Hrow Hst. rewrite update_leave_status_cascade, Hrow.
  by rewrite decide_True.
Qed.

Lemma decide_non_pending_witness :
  update_leave_status 2 "REJECTED" demo = (inl NotPending, demo)
  ∧ update_leave_status 2 "APPROVED" demo = (inl NotPending, demo).
Proof.
  split.
  - apply (decide_non_pending demo 2
             (LeaveRequest 2 140 142 (Some "Vacation") "APPROVED" 0) "REJECTED").
    + vm_compute. reflexivity.
    + discriminate.
  - apply (decide_non_pending demo 2
             (LeaveRequest 2 140 142 (Some "Vacation") "APPROVED" 0) "APPROVED").
    + vm_compute. reflexivity.
    + discriminate.
Defined.

(** C7: rejecting a PENDING request succeeds, sets the status of that
    request to REJECTED and changes nothing else: the [employees] table
    (hence every balance) is the same, every other request is the same,
    and the other columns of the rejected request are the same. *)
Theorem reject_pending (s : db) (leave_id : Z) (row : leave_request) :
  leave_requests s !! leave_id = Some row →
  r_status row = "PENDING" →
  let res := update_leave_status leave_id "REJECTED" s in
  res.1 = inr tt
  ∧ employees res.2 = employees s
  ∧ leave_requests res.2 !! leave_id =
      Some (LeaveRequest (r_employee_id row) (r_start_date row) (r_end_date row)
              (r_reason row) "REJECTED" (r_created_at row))
  ∧ (∀ j, j ≠ leave_id → leave_requests res.2 !! j = leave_requests s !! j).
Proof.
  intros Hrow Hst res. subst res.
  rewrite update_leave_status_cascade, Hrow.
  rewrite decide_False by (intros ?; congruence).
  rewrite decide_False by discriminate. simpl.
  repeat split.
  - by rewrite lookup_insert_eq.
  - intros j Hj. by rewrite lookup_insert_ne.
Qed.

Lemma reject_pending_witness :
  (update_leave_status 3 "REJECTED" demo).1 = inr tt
  ∧ employees (update_leave_status 3 "REJECTED" demo).2 = employees demo
  ∧ leave_requests (update_leave_status 3 "REJECTED" demo).2 !! 3 =
      Some (LeaveRequest 2 150 152 None "REJECTED" 0)
  ∧ (∀ j, j ≠ 3 →
       leave_requests (update_leave_status 3 "REJECTED" demo).2 !! j
       = leave_requests demo !! j).
Proof.
  apply (reject_pending demo 3 (LeaveRequest 2 150 152 None "PENDING" 0)).
  - vm_compute. reflexivity.
  - reflexivity.
Defined.

(** C10: the decision is not restricted to APPROVED and REJECTED.  For a
    PENDING request and any status string other than "APPROVED" the call
    succeeds, stores that string as the status and leaves the [employees]
    table untouched, however small the balance.  Only "APPROVED" looks at
    the balance: with a balance below the inclusive length it raises and
    writes nothing, and otherwise it commits, takes exactly the inclusive
    length off the balance of the request's employee, changes no other
    employee, and stores "APPROVED" as the status. *)
Theorem update_leave_status_any_string (s : db) (leave_id : Z)
    (row : leave_request) :
  leave_requests s !! leave_id = Some row →
  r_status row = "PENDING" →
  (∀ new_status : string,
     new_status ≠ "APPROVED" →
     let res := update_leave_status leave_id new_status s in
     res.1 = inr tt
     ∧ r_status <$> leave_requests res.2 !! leave_id = Some new_status
     ∧ employees res.2 = employees s)
  ∧ (∀ emp,
       employees s !! r_employee_id row = Some emp →
       e_leave_balance emp < days_inclusive (r_start_date row) (r_end_date row) →
       update_leave_status leave_id "APPROVED" s
       = (inl InsufficientBalanceAtApproval, s))
  ∧ (∀ emp,
       employees s !! r_employee_id row = Some emp →
       days_inclusive (r_start_date row) (r_end_date row) ≤ e_leave_balance emp →
       let res := update_leave_status leave_id "APPROVED" s in
       res.1 = inr tt
       ∧ r_status <$> leave_requests res.2 !! leave_id = Some "APPROVED"
       ∧ employees res.2 =
           <[r_employee_id row :=
               Employee (e_name emp) (e_email emp) (e_department emp)
                 (e_joining_date emp)
                 (e_leave_balance emp
                  - days_inclusive (r_start_date row) (r_end_date row))
                 (e_created_at emp)]> (employees s)
       ∧ e_leave_balance <$> employees res.2 !! r_employee_id row
         = Some (e_leave_balance emp
                 - days_inclusive (r_start_date row) (r_end_date row))).
Proof.
  intros Hrow Hst. split; [|split].
  - intros new_status Hne res. subst res.
    rewrite update_leave_status_cascade, Hrow.
    rewrite decide_False by (intros ?; congruence).
    rewrite decide_False by done. simpl.
    by rewrite lookup_insert_eq.
  - intros emp Hemp Hlt.
    rewrite update_leave_status_cascade, Hrow.
    rewrite decide_False by (intros ?; congruence).
    rewrite decide_True by done. rewrite Hemp. simpl.
    by rewrite decide_True by lia.
  - intros emp Hemp Hle res. subst res.
    rewrite update_leave_status_cascade, Hrow.
    rewrite decide_False by (intros ?; congruence).
    rewrite decide_True by done. rewrite Hemp. simpl.
    rewrite decide_False by lia. simpl.
    rewrite !lookup_insert_eq. done.
Qed.

Lemma update_leave_status_any_string_witness :
  (update_leave_status 3 "PENDING" demo).1 = inr tt
  ∧ r_status <$> leave_requests (update_leave_status 3 "on hold" demo).2 !! 3
    = Some "on hold"
  ∧ employees (update_leave_status 3 "on hold" demo).2 = employees demo
  ∧ update_leave_status 3 "APPROVED" demo
    = (inl InsufficientBalanceAtApproval, demo)
  ∧ (update_leave_status 1 "APPROVED" demo).1 = inr tt
  ∧ r_status <$> leave_requests (update_leave_status 1 "APPROVED" demo).2 !! 1
    = Some "APPROVED"
  ∧ e_leave_balance <$> employees (update_leave_status 1 "APPROVED" demo).2 !! 1
    = Some (24 - days_inclusive 131 135).
Proof.
  destruct (update_leave_status_any_string demo 3
              (LeaveRequest 2 150 152 None "PENDING" 0)) as (Hany & Happ & _).
  { vm_compute. reflexivity. }
  { reflexivity. }
  destruct (update_leave_status_any_string demo 1
              (LeaveRequest 1 131 135 None "PENDING" 0)) as (_ & _ & Hded).
  { vm_compute. reflexivity. }
  { reflexivity. }
  destruct (Hded (Employee "Bob" "bob@x.org" "HR" 100 24 0))
    as (Hok & Hst & _ & Hbal).
  { vm_compute. reflexivity. }
  { vm_compute. discriminate. }
  split; [apply (Hany "PENDING"); discriminate|].
  split; [apply (Hany "on hold"); discriminate|].
  split; [apply (Hany "on hold"); discriminate|].
  split.
  { apply (Happ (Employee "Alice" "alice@x.org" "Sales" 100 2 0)).
    - vm_compute. reflexivity.
    - vm_compute. reflexivity. }
  split; [exact Hok|]. split; [exact Hst|exact Hbal].
Defined.

(** ** What each operation does to the two tables *)

Lemma add_employee_effect name email department joining_date leave_balance s :
  leave_requests (add_employee name email department joining_date leave_balance s).2
  = leave_requests s
  ∧ (employees (add_employee name email department joining_date leave_balance s).2
     = employees s
     ∨ employees (add_employee name email department joining_date leave_balance s).2
       = <[next_rowid (employees_seq s) (employees s) :=
             Employee name email department joining_date leave_balance
               (current_timestamp s)]> (employees s)).
Proof.
  unfold add_employee, insert_employee, transaction.
  destruct (decide (map_Exists _ _)); simpl; auto.
Qed.

Lemma apply_leave_employees employee_id start_date end_date reason s :
  employees (apply_leave employee_id start_date end_date reason s).2 = employees s.
Proof.
  rewrite apply_leave_cascade.
  destruct (employees s !! employee_id); [|done].
  repeat case_decide; done.
Qed.

Lemma update_leave_status_employees leave_id new_status s id e' :
  employees (update_leave_status leave_id new_status s).2 !! id = Some e' →
  employees s !! id = Some e'
  ∨ ∃ e needed, employees s !! id = Some e
                ∧ needed ≤ e_leave_balance e
                ∧ e' = sub_leave_balance needed e.
Proof.
  rewrite update_leave_status_cascade.
  destruct (leave_requests s !! leave_id) as [row|]; [|by left].
  destruct (decide (r_status row ≠ "PENDING")) as [?|_]; [by left|].
  destruct (decide (new_status = "APPROVED")) as [_|?]; [|by left].
  destruct (employees s !! r_employee_id row) as [e|] eqn:He; [|by left].
  simpl. destruct (decide (_ > _)) as [|Hle]; [by left|]. simpl.
  rewrite lookup_insert. case_decide as Hid; [|by left].
  intros [= <-]. subst id. right. eexists _, _.
  split; [done|]. split; [|done]. lia.
Qed.

(** ** Balances never go negative *)

Lemma run_preserves_balances o s :
  nonneg_initial_balance o → balances_nonneg s → balances_nonneg (run o s).
Proof.
  intros Ho Hs id e'. destruct o as [n em d j b|eid sd ed r|lid st|now]; simpl.
  - destruct (add_employee_effect n em d j b s) as [_ [-> | ->]]; [apply Hs|].
    rewrite lookup_insert. case_decide; [|apply Hs].
    intros [= <-]. exact Ho.
  - rewrite apply_leave_employees. apply Hs.
  - intros [He|(e & needed & He & Hle & ->)]%update_leave_status_employees.
    + by apply (Hs id).
    + simpl. lia.
  - apply Hs.
Qed.

(** C1, as stated, fails: registering an employee with initial balance -5
    on a fresh database commits a row whose balance is -5. *)
Lemma negative_initial_balance :
  let s := run (AddEmployee "Eve" "eve@x.org" "HR" 100 (-5)) init_db in
  reachable s
  ∧ e_leave_balance <$> employees s !! 1 = Some (-5)
  ∧ ¬ balances_nonneg s.
Proof.
  intros s. split; [|split].
  - by apply reachable_step; [apply reachable_init|].
  - vm_compute. reflexivity.
  - intros H.
    assert (Hl : employees s !! 1 = Some (Employee "Eve" "eve@x.org" "HR" 100 (-5) 0))
      by (vm_compute; reflexivity).
    apply H in Hl. simpl in Hl. lia.
Qed.

(** C1, amended: provided every registration passes a non-negative initial
    balance (as the registration form does), every operation keeps all
    balances non-negative, and so all balances are non-negative in every
    state reached from a fresh database. *)
Theorem balances_stay_nonneg :
  (∀ (o : op) (s : db),
     nonneg_initial_balance o → balances_nonneg s → balances_nonneg (run o s))
  ∧ (∀ s : db,
       reachable_by nonneg_initial_balance s →
       ∀ id e, employees s !! id = Some e → 0 ≤ e_leave_balance e).
Proof.
  split; [apply run_preserves_balances|].
  intros s Hs. fold (balances_nonneg s).
  induction Hs as [|s o _ IH Ho].
  - intros id e. unfold init_db; simpl. by rewrite lookup_empty.
  - by apply run_preserves_balances.
Qed.

Lemma reachable_by_run_all (P : op → Prop) os s :
  reachable_by P s → Forall P os → reachable_by P (run_all os s).
Proof.
  intros Hs Hos. revert s Hs. unfold run_all.
  induction Hos as [|o os Ho _ IH]; intros s Hs; simpl; [done|].
  apply IH. by apply reachable_step.
Qed.

Lemma balances_stay_nonneg_witness :
  balances_nonneg demo
  ∧ balances_nonneg (run (UpdateLeaveStatus 1 "APPROVED") demo).
Proof.
  destruct balances_stay_nonneg as [Hstep Hreach].
  assert (Hdemo : balances_nonneg demo).
  { intros id e. apply (Hreach demo). unfold demo.
    apply reachable_by_run_all; [apply reachable_init|].
    repeat constructor; simpl; lia. }
  split; [exact Hdemo|].
  apply (Hstep (UpdateLeaveStatus 1 "APPROVED") demo); [exact I|exact Hdemo].
Defined.

(** ** Active requests of an employee never overlap *)

Lemma apply_leave_preserves_no_overlap employee_id start_date end_date reason s :
  no_overlap s →
  no_overlap (apply_leave employee_id start_date end_date reason s).2.
Proof.
  intros Hs. rewrite apply_leave_cascade.
  destruct (employees s !! employee_id) as [emp|]; [|done].
  destruct (decide (end_date < start_date)); [done|].
  destruct (decide (start_date < e_joining_date emp)); [done|].
  destruct (decide (map_Exists _ _)) as [|Hfree]; [done|].
  destruct (decide (_ > _)); [done|].
  intros i j a b Hij Ha Hb Hemp Hact_a Hact_b Hov. simpl in Ha, Hb.
  rewrite lookup_insert in Ha, Hb.
  destruct (decide (_ = i)) as [Hi|Hi], (decide (_ = j)) as [Hj|Hj];
    simplify_eq.
  - apply Hfree. exists j, b. split; [done|].
    unfold ranges_overlap, pending_row in *; simpl in *.
    unfold overlaps. repeat split; [done|done|lia|lia].
  - apply Hfree. exists i, a. split; [done|].
    unfold ranges_overlap, pending_row in *; simpl in *.
    unfold overlaps. repeat split; [done|done|lia|lia].
  - by apply (Hs i j a b).
Qed.

Lemma update_leave_status_preserves_no_overlap leave_id new_status s :
  no_overlap s →
  no_overlap (update_leave_status leave_id new_status s).2.
Proof.
  intros Hs.
  assert (Hreq :
    leave_requests (update_leave_status leave_id new_status s).2 = leave_requests s
    ∨ ∃ row, leave_requests s !! leave_id = Some row
             ∧ r_status row = "PENDING"
             ∧ leave_requests (update_leave_status leave_id new_status s).2
               = <[leave_id := set_status new_status row]> (leave_requests s)).
  { rewrite update_leave_status_cascade.
    destruct (leave_requests s !! leave_id) as [row|] eqn:Hrow; [|by left].
    destruct (decide (r_status row ≠ "PENDING")) as [|Hp]; [by left|].
    apply dec_stable in Hp.
    destruct (decide (new_status = "APPROVED")) as [_|_].
    - destruct (employees s !! r_employee_id row); [|by left].
      simpl. destruct (decide (_ > _)); [by left|]. right. by exists row.
    - right. by exists row. }
  destruct Hreq as [Heq|(row & Hrow & Hp & Heq)];
    intros i j a b Hij Ha Hb Hemp Hact_a Hact_b Hov; rewrite Heq in Ha, Hb.
  { by apply (Hs i j a b). }
  simpl in Ha, Hb.
  assert (Hact : active row) by (by left).
  rewrite lookup_insert in Ha, Hb.
  destruct (decide (leave_id = i)) as [Hi|Hi], (decide (leave_id = j)) as [Hj|Hj];
    simplify_eq.
  - by apply (Hs i j row b).
  - by apply (Hs i j a row).
  - by apply (Hs i j a b).
Qed.

Lemma run_preserves_no_overlap o s : no_overlap s → no_overlap (run o s).
Proof.
  intros Hs. destruct o as [n em d j b|eid sd ed r|lid st|now]; simpl.
  - unfold no_overlap.
    destruct (add_employee_effect n em d j b s) as [-> _]. apply Hs.
  - by apply apply_leave_preserves_no_overlap.
  - by apply update_leave_status_preserves_no_overlap.
  - apply Hs.
Qed.

(** C3: in every state reached from a fresh database, the PENDING and
    APPROVED requests of any one employee have pairwise disjoint inclusive
    date ranges; and the property is kept by [apply_leave] and by
    [update_leave_status], whatever the decision and whether the call
    commits or raises. *)
Theorem active_requests_never_overlap :
  (∀ s : db,
     reachable s →
     ∀ i j a b,
       i ≠ j →
       leave_requests s !! i = Some a →
       leave_requests s !! j = Some b →
       r_employee_id a = r_employee_id b →
       (r_status a = "PENDING" ∨ r_status a = "APPROVED") →
       (r_status b = "PENDING" ∨ r_status b = "APPROVED") →
       ¬ (r_start_date a ≤ r_end_date b ∧ r_end_date a >= r_start_date b))
  ∧ (∀ s employee_id start_date end_date reason,
       no_overlap s →
       no_overlap (apply_leave employee_id start_date end_date reason s).2)
  ∧ (∀ s leave_id new_status,
       no_overlap s →
       no_overlap (update_leave_status leave_id new_status s).2).
Proof.
  split; [|split].
  - intros s Hs. fold (no_overlap s).
    induction Hs as [|s o _ IH _].
    + intros i j a b _ Ha. unfold init_db in Ha; simpl in Ha.
      by rewrite lookup_empty in Ha.
    + by apply run_preserves_no_overlap.
  - intros. by apply apply_leave_preserves_no_overlap.
  - intros. by apply update_leave_status_preserves_no_overlap.
Qed.

Lemma active_requests_never_overlap_witness :
  no_overlap demo
  ∧ no_overlap (apply_leave 1 200 201 None demo).2
  ∧ no_overlap (update_leave_status 3 "REJECTED" demo).2.
Proof.
  destruct active_requests_never_overlap as (Hreach & Happly & Hupd).
  assert (Hdemo : no_overlap demo).
  { assert (Hr : reachable demo).
    { unfold demo. apply reachable_by_run_all; [apply reachable_init|].
      repeat constructor. }
    exact (Hreach demo Hr). }
  split; [exact Hdemo|]. split.
  - apply (Happly demo 1 200 201 None Hdemo).
  - apply (Hupd demo 3 "REJECTED" Hdemo).
Defined.

(** ** [list_employees] *)

Lemma ascii_lower_idemp c : ascii_lower (ascii_lower c) = ascii_lower c.
Proof. destruct c as [[] [] [] [] [] [] [] []]; vm_compute; reflexivity. Qed.

Lemma ascii_lower_percent c : ascii_lower c = "%"%char ↔ c = "%"%char.
Proof.
  destruct c as [[] [] [] [] [] [] [] []]; vm_compute; split; congruence.
Qed.

Lemma ascii_lower_underscore c : ascii_lower c = "_"%char ↔ c = "_"%char.
Proof.
  destruct c as [[] [] [] [] [] [] [] []]; vm_compute; split; congruence.
Qed.

Lemma wildcard_free_lower q : wildcard_free q → wildcard_free (lower q).
Proof.
  induction q as [|c q IH]; simpl; [done|].
  intros (Hp & Hu & Hq). rewrite ascii_lower_percent, ascii_lower_underscore.
  auto.
Qed.

Lemma like_percent_nil p : like (String "%" p) "" = like p "".
Proof. simpl. by rewrite orb_false_r. Qed.

Lemma like_percent_cons p d s :
  like (String "%" p) (String d s) = like p (String d s) || like (String "%" p) s.
Proof. reflexivity. Qed.

(** A lone [%] matches every string. *)
Lemma like_percent s : like "%" s = true.
Proof.
  induction s as [|d s IH]; [done|].
  rewrite like_percent_cons, IH. apply orb_true_r.
Qed.

(** A wildcard-free pattern followed by [%] is a prefix test. *)
Lemma like_literal_percent p s :
  wildcard_free p → like (p +:+ "%") s = starts_with_nocase p s.
Proof.
  revert s. induction p as [|c p IH]; intros s Hp.
  - apply like_percent.
  - destruct Hp as (Hc1 & Hc2 & Hp). simpl.
    rewrite decide_False by done. rewrite decide_False by done.
    destruct s as [|d s]; [done|]. by rewrite IH.
Qed.

(** [%] in front turns the test into a search from every position. *)
Lemma like_percent_literal_percent p s :
  wildcard_free p → like ("%" +:+ p +:+ "%") s = substring_nocase p s.
Proof.
  intros Hp. change ("%" +:+ p +:+ "%") with (String "%" (p +:+ "%")).
  induction s as [|d s IH].
  - rewrite like_percent_nil, like_literal_percent by done.
    simpl. by rewrite orb_false_r.
  - rewrite like_percent_cons, IH, like_literal_percent by done. done.
Qed.

Lemma starts_with_nocase_lower q s :
  starts_with_nocase (lower q) (lower s) = starts_with_nocase q s.
Proof.
  revert s. induction q as [|c q IH]; intros [|d s]; simpl; try done.
  by rewrite !ascii_lower_idemp, IH.
Qed.

Lemma substring_nocase_lower q s :
  substring_nocase (lower q) (lower s) = substring_nocase q s.
Proof.
  induction s as [|d s IH]; simpl.
  - by rewrite <- (starts_with_nocase_lower q "").
  - rewrite IH. by rewrite <- (starts_with_nocase_lower q (String d s)).
Qed.

(** For a wildcard-free filter, the [WHERE] clause is the substring test
    of the design document. *)
Lemma where_like_literal q row :
  wildcard_free q →
  where_like ("%" +:+ lower q +:+ "%") row = matches_filter (Some q) row.2.
Proof.
  intros Hq. unfold where_like, matches_filter.
  rewrite !like_percent_literal_percent by by apply wildcard_free_lower.
  by rewrite !substring_nocase_lower.
Qed.

Lemma app_String c a b : String c a +:+ b = String c (a +:+ b).
Proof. reflexivity. Qed.

Lemma app_Empty b : "" +:+ b = b.
Proof. reflexivity. Qed.

(** [starts_with_nocase] and [substring_nocase] say what their names say. *)
Lemma starts_with_nocase_spec q s :
  starts_with_nocase q s = true ↔
  ∃ mid post, s = mid +:+ post ∧ lower mid = lower q.
Proof.
  revert s. induction q as [|c q IH]; intros s; simpl.
  - split; [|done]. intros _. by exists "", s.
  - destruct s as [|d s].
    + split; [done|]. intros (mid & post & Hs & Hm).
      destruct mid; simpl in *; discriminate.
    + rewrite andb_true_iff, bool_decide_eq_true, IH. split.
      * intros (Hcd & mid & post & -> & Hm).
        exists (String d mid), post. simpl. by rewrite Hm, Hcd.
      * intros (mid & post & Hs & Hm).
        destruct mid as [|d' mid]; simpl in Hm; [discriminate|].
        rewrite app_String in Hs.
        simplify_eq. split; [done|]. by exists mid, post.
Qed.

Lemma substring_nocase_spec q s :
  substring_nocase q s = true ↔
  ∃ pre mid post, s = pre +:+ mid +:+ post ∧ lower mid = lower q.
Proof.
  induction s as [|d s IH]; simpl; rewrite orb_true_iff, starts_with_nocase_spec.
  - split.
    + intros [(mid & post & Hs & Hm)|?]; [|done]. by exists "", mid, post.
    + intros (pre & mid & post & Hs & Hm). left.
      destruct pre; [|rewrite app_String in Hs; discriminate].
      by exists mid, post.
  - rewrite IH. split.
    + intros [(mid & post & Hs & Hm)|(pre & mid & post & Hs & Hm)].
      * by exists "", mid, post.
      * exists (String d pre), mid, post. by rewrite app_String, Hs.
    + intros (pre & mid & post & Hs & Hm).
      destruct pre as [|d' pre].
      * left. by exists mid, post.
      * right. rewrite app_String in Hs. simplify_eq. by exists pre, mid, post.
Qed.

(** [ORDER BY id DESC] returns the same rows, largest id first. *)
Lemma order_by_id_desc_elem rows x : x ∈ order_by_id_desc rows ↔ x ∈ rows.
Proof. unfold order_by_id_desc. by rewrite merge_sort_Permutation. Qed.

Lemma strict_of_nodup (l : list (Z * employee)) :
  NoDup l.*1 → StronglySorted id_desc l →
  StronglySorted (λ a b, b.1 < a.1) l.
Proof.
  induction 2 as [|x l Hl IH Hx]; [constructor|].
  apply NoDup_cons in H as [Hnotin Hnd].
  constructor; [by apply IH|].
  apply Forall_forall. intros y Hy.
  rewrite Forall_forall in Hx. specialize (Hx y Hy). unfold id_desc in Hx.
  assert (y.1 ≠ x.1); [|lia].
  intros Heq. apply Hnotin. rewrite <- Heq.
  apply list_elem_of_fmap. by exists y.
Qed.

Lemma order_by_id_desc_sorted rows :
  NoDup rows.*1 → StronglySorted (λ a b, b.1 < a.1) (order_by_id_desc rows).
Proof.
  intros Hnd. apply strict_of_nodup.
  - unfold order_by_id_desc. by rewrite merge_sort_Permutation.
  - apply StronglySorted_merge_sort; apply _.
Qed.

Lemma filter_nodup_fst (f : Z * employee → bool) rows :
  NoDup rows.*1 → NoDup (List.filter f rows).*1.
Proof.
  induction rows as [|x rows IH]; simpl; [done|].
  intros [Hx Hnd]%NoDup_cons. destruct (f x); simpl; [|by apply IH].
  apply NoDup_cons. split; [|by apply IH].
  intros (y & Hy1 & Hy2)%list_elem_of_fmap. apply Hx.
  apply list_elem_of_fmap. exists y. split; [done|].
  apply list_elem_of_In. apply list_elem_of_In in Hy2.
  by apply filter_In in Hy2 as [? _].
Qed.

Lemma matches_filter_empty e : matches_filter (Some "") e = true.
Proof. unfold matches_filter. by destruct (e_name e). Qed.

(** For an absent or empty filter, and for a literal filter (ASCII, no
    NUL, no [%], no [_], at most 49998 characters) over a store whose names
    and emails hold no NUL, [list_employees] reads without writing and
    returns exactly the employees whose name or email contains the filter
    up to the case of ASCII letters, each once, by strictly descending
    id.  The conditions on the filter and on the text are those under
    which [lower] and [like] are SQLite's and Python's functions. *)
Theorem list_employees_literal (s : db) (q : option string) :
  (∀ q', q = Some q' → q' ≠ "" → literal_filter q' ∧ text_nul_free s) →
  ∃ rows,
    list_employees q s = (inr rows, s)
    ∧ (∀ id e, (id, e) ∈ rows ↔
               employees s !! id = Some e ∧ matches_filter q e = true)
    ∧ StronglySorted (λ a b, b.1 < a.1) rows.
Proof.
  intros Hq'.
  assert (Hq : ∀ q', q = Some q' → q' ≠ "" → wildcard_free q').
  { intros q' Hq1 Hq2. by destruct (Hq' q' Hq1 Hq2) as [[? _] _]. }
  clear Hq'. unfold list_employees, query.
  assert (Hall : ∀ q0,
            (∀ e, matches_filter q0 e = true) →
            (∀ id e, (id, e) ∈ order_by_id_desc (map_to_list (employees s)) ↔
                     employees s !! id = Some e ∧ matches_filter q0 e = true)
            ∧ StronglySorted (λ a b, b.1 < a.1)
                (order_by_id_desc (map_to_list (employees s)))).
  { intros q0 Hq0. split.
    - intros id e. rewrite order_by_id_desc_elem, elem_of_map_to_list.
      specialize (Hq0 e). tauto.
    - apply order_by_id_desc_sorted, NoDup_fst_map_to_list. }
  destruct q as [q|]; [destruct (decide (q = "")) as [->|Hne]|].
  - eexists. split; [done|]. apply Hall, matches_filter_empty.
  - eexists. split; [done|]. split.
    + intros id e.
      rewrite order_by_id_desc_elem, list_elem_of_In, filter_In,
        <- list_elem_of_In, elem_of_map_to_list.
      by rewrite where_like_literal by by apply Hq.
    + apply order_by_id_desc_sorted, filter_nodup_fst, NoDup_fst_map_to_list.
  - eexists. split; [done|]. by apply Hall.
Qed.

Lemma list_employees_literal_witness :
  ∃ rows,
    list_employees (Some "BOB@") demo = (inr rows, demo)
    ∧ (∀ id e, (id, e) ∈ rows ↔
               employees demo !! id = Some e
               ∧ matches_filter (Some "BOB@") e = true)
    ∧ StronglySorted (λ a b, b.1 < a.1) rows.
Proof.
  apply (list_employees_literal demo (Some "BOB@")).
  intros q' [= <-] _. split.
  - unfold literal_filter. split; [|split; [|split]].
    + simpl. repeat split; discriminate.
    + apply (bool_decide_unpack _). vm_compute. exact I.
    + apply (bool_decide_unpack _). vm_compute. exact I.
    + simpl. lia.
  - apply (bool_decide_unpack _). vm_compute. exact I.
Defined.

(** C8 fails on a filter that contains a [LIKE] wildcard: with the filter
    ["_"], [list_employees] returns both employees of [demo], although
    neither name nor email of either contains an underscore, so that the
    employees containing the filter are none. *)
Theorem list_employees_underscore :
  list_employees (Some "_") demo
  = (inr [(2, Employee "Alice" "alice@x.org" "Sales" 100 2 0);
          (1, Employee "Bob" "bob@x.org" "HR" 100 24 0)], demo)
  ∧ matches_filter (Some "_") (Employee "Alice" "alice@x.org" "Sales" 100 2 0)
    = false
  ∧ matches_filter (Some "_") (Employee "Bob" "bob@x.org" "HR" 100 24 0)
    = false
  ∧ ¬ (∀ id e,
         (id, e) ∈ [(2, Employee "Alice" "alice@x.org" "Sales" 100 2 0);
                    (1, Employee "Bob" "bob@x.org" "HR" 100 24 0)] ↔
         employees demo !! id = Some e ∧ matches_filter (Some "_") e = true).
Proof.
  split; [|split; [|split]].
  - unfold list_employees, query. f_equal; vm_compute; reflexivity.
  - vm_compute. reflexivity.
  - vm_compute. reflexivity.
  - intros H.
    destruct (H 1 (Employee "Bob" "bob@x.org" "HR" 100 24 0)) as [H1 _].
    destruct H1 as [_ H1]; [|vm_compute in H1; discriminate].
    apply elem_of_cons. right. apply elem_of_cons. by left.
Qed.

(** ** [get_balance] and the scenarios of the design document *)

Lemma get_balance_cascade emp_id s :
  get_balance emp_id s =
  match employees s !! emp_id with
  | None => (inl EmployeeNotFound, s)
  | Some e => (inr (e_leave_balance e), s)
  end.
Proof.
  unfold get_balance, select_employee. unfold_tx.
  by destruct (employees s !! emp_id).
Qed.

Example scenario_submit_keeps_balance :
  (get_balance 1 scenario).1 = inr 24
  ∧ r_status <$> leave_requests scenario !! 1 = Some "PENDING".
Proof. split; vm_compute; reflexivity. Qed.

Example scenario_overlap_refused :
  apply_leave 1 738919 738920 None scenario = (inl OverlappingRequest, scenario).
Proof.
  rewrite apply_leave_cascade.
  replace (employees scenario !! 1) with
    (Some (Employee "Jane Doe" "jane.doe@company.com" "Engineering" 738886 24 0))
    by (vm_compute; reflexivity).
  rewrite !decide_False by (simpl; lia).
  rewrite decide_True; [done|].
  exists 1, (LeaveRequest 1 738917 738921 None "PENDING" 0).
  split; [vm_compute; reflexivity|].
  unfold overlaps; simpl. split; [done|]. split; [by left|lia].
Qed.

Example scenario_approve_deducts :
  (get_balance 1 (run (UpdateLeaveStatus 1 "APPROVED") scenario)).1 = inr 19
  ∧ r_status <$> leave_requests (run (UpdateLeaveStatus 1 "APPROVED") scenario) !! 1
    = Some "APPROVED".
Proof. split; vm_compute; reflexivity. Qed.

Example scenario_small_balance :
  (apply_leave 1 10 13 None
     (run (AddEmployee "Sam" "sam@company.com" "HR" 1 3) init_db)).1
  = inl InsufficientBalance.
Proof. vm_compute. reflexivity. Qed.

Example scenario_second_approval_fails :
  let s := run_all [AddEmployee "Sam" "sam@company.com" "HR" 1 5;
                    ApplyLeave 1 10 12 None;
                    ApplyLeave 1 20 22 None;
                    UpdateLeaveStatus 1 "APPROVED"] init_db in
  (get_balance 1 s).1 = inr 2
  ∧ (update_leave_status 2 "APPROVED" s).1 = inl InsufficientBalanceAtApproval.
Proof. split; vm_compute; reflexivity. Qed.

(** * Further properties of the code *)

(** ** [add_employee] *)

Lemma add_employee_cascade name email department joining_date leave_balance s :
  add_employee name email department joining_date leave_balance s =
  if decide (map_Exists (λ _ e, e_email e = email) (employees s))
  then (inl (IntegrityError "UNIQUE constraint failed: employees.email"), s)
  else
    let id := next_rowid (employees_seq s) (employees s) in
    (inr tt,
     Db (<[id := Employee name email department joining_date leave_balance
                   (current_timestamp s)]> (employees s))
        id (leave_requests s) (leave_requests_seq s) (current_timestamp s)).
Proof.
  unfold add_employee, insert_employee, transaction.
  by destruct (decide (map_Exists _ _)).
Qed.

(** ** Row ids *)

Lemma max_rowid_le {A} (m : gmap Z A) b :
  0 ≤ b → (∀ k v, m !! k = Some v → k ≤ b) → max_rowid m ≤ b.
Proof.
  intros Hb Hm. unfold max_rowid.
  assert (Hall : ∀ k, k ∈ (map_to_list m).*1 → k ≤ b).
  { intros k ([k' v] & -> & Hkv)%list_elem_of_fmap.
    apply elem_of_map_to_list in Hkv. by apply (Hm k' v). }
  induction ((map_to_list m).*1) as [|x l IH]; simpl; [done|].
  assert (x ≤ b) by (apply Hall; by left).
  assert (foldr Z.max 0 l ≤ b) by (apply IH; intros k Hk; apply Hall; by right).
  lia.
Qed.

Lemma next_rowid_dense {A} seq (m : gmap Z A) :
  table_dense seq m → next_rowid seq m = seq + 1.
Proof.
  intros [Hseq Hdom]. unfold next_rowid.
  assert (max_rowid m ≤ seq); [|lia].
  apply max_rowid_le; [done|]. intros k v Hk.
  assert (is_Some (m !! k)) as Hsome by (by eexists).
  apply Hdom in Hsome. lia.
Qed.

Lemma table_dense_insert_next {A} seq (m : gmap Z A) x :
  table_dense seq m →
  table_dense (next_rowid seq m) (<[next_rowid seq m := x]> m).
Proof.
  intros Hd. rewrite (next_rowid_dense _ _ Hd). destruct Hd as [Hseq Hdom].
  split; [lia|]. intros id. rewrite lookup_insert_is_Some', Hdom. lia.
Qed.

Lemma table_dense_insert_existing {A} seq (m : gmap Z A) i x y :
  m !! i = Some x → table_dense seq m → table_dense seq (<[i := y]> m).
Proof.
  intros Hi [Hseq Hdom]. split; [done|]. intros id.
  rewrite lookup_insert_is_Some', <- Hdom. split; [|by right].
  intros [<-|?]; [by eexists|done].
Qed.

Lemma run_preserves_ids_dense o s : ids_dense s → ids_dense (run o s).
Proof.
  intros [He Hr]. destruct o as [n em d j b|eid sd ed r|lid st|now]; simpl.
  - rewrite add_employee_cascade. case_decide; [done|].
    split; simpl; [by apply table_dense_insert_next|done].
  - rewrite apply_leave_cascade.
    destruct (employees s !! eid); [|done].
    repeat case_decide; try done.
    split; simpl; [done|by apply table_dense_insert_next].
  - rewrite update_leave_status_cascade.
    destruct (leave_requests s !! lid) as [row|] eqn:Hrow; [|done].
    repeat case_decide; try done.
    + destruct (employees s !! r_employee_id row) eqn:Hemp; [|done].
      simpl. case_decide; [done|].
      split; simpl; by eapply table_dense_insert_existing.
    + split; simpl; [done|by eapply table_dense_insert_existing].
  - done.
Qed.

Lemma reachable_dense s : reachable s → ids_dense s.
Proof.
  induction 1 as [|s o _ IH _]; [|by apply run_preserves_ids_dense].
  split; (split; [done|]); intros id; unfold init_db; simpl;
    rewrite lookup_empty; split; [by intros [??]|lia | by intros [??]|lia].
Qed.

(** In every state reached from a fresh database the ids of each table
    are exactly 1 up to its [sqlite_sequence] counter, and the next
    inserted row gets the counter plus one. *)
Theorem reachable_ids_dense (s : db) :
  reachable s →
  (∀ id, is_Some (employees s !! id) ↔ 1 ≤ id ≤ employees_seq s)
  ∧ (∀ id, is_Some (leave_requests s !! id) ↔ 1 ≤ id ≤ leave_requests_seq s)
  ∧ next_rowid (employees_seq s) (employees s) = employees_seq s + 1
  ∧ next_rowid (leave_requests_seq s) (leave_requests s)
    = leave_requests_seq s + 1.
Proof.
  intros Hs. destruct (reachable_dense s Hs) as [He Hr].
  split; [apply He|]. split; [apply Hr|].
  split; by apply next_rowid_dense.
Qed.

Lemma demo_reachable : reachable demo.
Proof.
  unfold demo. apply reachable_by_run_all; [apply reachable_init|].
  repeat constructor.
Qed.

Lemma reachable_ids_dense_witness :
  (∀ id, is_Some (employees demo !! id) ↔ 1 ≤ id ≤ employees_seq demo)
  ∧ (∀ id, is_Some (leave_requests demo !! id)
           ↔ 1 ≤ id ≤ leave_requests_seq demo)
  ∧ next_rowid (employees_seq demo) (employees demo) = employees_seq demo + 1
  ∧ next_rowid (leave_requests_seq demo) (leave_requests demo)
    = leave_requests_seq demo + 1.
Proof. exact (reachable_ids_dense demo demo_reachable). Defined.

(** ** How one operation changes a row *)

Lemma same_person_refl e : same_person e e.
Proof. by repeat split. Qed.

Lemma same_request_refl r : same_request r r.
Proof. by repeat split. Qed.

(** Rows of [employees] are never deleted; an operation changes at most
    the balance of one, and only by approving one of its pending requests. *)
Lemma run_employee_persists o s id e :
  employees s !! id = Some e →
  ∃ e', employees (run o s) !! id = Some e'
        ∧ same_person e e'
        ∧ (e' = e
           ∨ ∃ lid row,
               o = UpdateLeaveStatus lid "APPROVED"
               ∧ leave_requests s !! lid = Some row
               ∧ r_status row = "PENDING"
               ∧ r_employee_id row = id
               ∧ days_inclusive (r_start_date row) (r_end_date row)
                 ≤ e_leave_balance e
               ∧ e_leave_balance e'
                 = e_leave_balance e
                   - days_inclusive (r_start_date row) (r_end_date row)).
Proof.
  intros He.
  assert (Hsame : ∀ s', employees s' = employees s →
            ∃ e', employees s' !! id = Some e' ∧ same_person e e'
                  ∧ (e' = e ∨ ∃ lid row,
               o = UpdateLeaveStatus lid "APPROVED"
               ∧ leave_requests s !! lid = Some row
               ∧ r_status row = "PENDING"
               ∧ r_employee_id row = id
               ∧ days_inclusive (r_start_date row) (r_end_date row)
                 ≤ e_leave_balance e
               ∧ e_leave_balance e'
                 = e_leave_balance e
                   - days_inclusive (r_start_date row) (r_end_date row))).
  { intros s' ->. exists e. split; [done|]. split; [apply same_person_refl|by left]. }
  destruct o as [n em d j b|eid sd ed r|lid st|now]; simpl.
  - rewrite add_employee_cascade. case_decide; [by apply Hsame|]. simpl.
    exists e. split; [|split; [apply same_person_refl|by left]].
    rewrite lookup_insert_ne; [done|].
    intros Heq. rewrite <- Heq, next_rowid_fresh in He. discriminate.
  - apply Hsame, apply_leave_employees.
  - rewrite update_leave_status_cascade.
    destruct (leave_requests s !! lid) as [row|] eqn:Hrow; [|by apply Hsame].
    destruct (decide (r_status row ≠ "PENDING")) as [|Hp]; [by apply Hsame|].
    apply dec_stable in Hp.
    destruct (decide (st = "APPROVED")) as [->|]; [|by apply Hsame].
    destruct (employees s !! r_employee_id row) as [e0|] eqn:He0;
      [|by apply Hsame].
    simpl. destruct (decide (_ > _)) as [|Hle]; [by apply Hsame|]. simpl.
    destruct (decide (r_employee_id row = id)) as [Hid|Hid].
    + rewrite Hid in *. simplify_eq. rewrite lookup_insert_eq.
      eexists. split; [done|]. split; [by repeat split|].
      right. exists lid, row. repeat split; (done || lia).
    + rewrite lookup_insert_ne by done.
      exists e. split; [done|]. split; [apply same_person_refl|by left].
  - by apply Hsame.
Qed.

(** A row of [employees] after an operation was there before, up to its
    balance, or is the one row that [add_employee] has just inserted. *)
Lemma run_employee_origin o s id e' :
  employees (run o s) !! id = Some e' →
  (∃ e, employees s !! id = Some e ∧ same_person e e')
  ∨ (employees s !! id = None
     ∧ id = next_rowid (employees_seq s) (employees s)
     ∧ ¬ map_Exists (λ _ e, e_email e = e_email e') (employees s)
     ∧ ∃ n d j b, o = AddEmployee n (e_email e') d j b
                  ∧ e' = Employee n (e_email e') d j b (current_timestamp s)).
Proof.
  intros He'.
  destruct (employees s !! id) as [e|] eqn:He.
  - left. exists e. split; [done|].
    destruct (run_employee_persists o s id e He) as (e'' & He'' & Hsame & _).
    by simplify_eq.
  - right. split; [done|].
    destruct o as [n em d j b|eid sd ed r|lid st|now]; simpl in He'.
    + rewrite add_employee_cascade in He'.
      case_decide as Hex; simpl in He'; [congruence|].
      apply lookup_insert_Some in He' as [[<- <-]|[_ ?]]; [|congruence].
      split; [done|]. split; [done|]. by eexists _, _, _, _.
    + rewrite apply_leave_employees in He'. congruence.
    + apply update_leave_status_employees in He'
        as [?|(e & ? & ? & _)]; congruence.
    + congruence.
Qed.

(** Rows of [leave_requests] are never deleted; an operation changes at
    most the status of one, and only if that one is PENDING. *)
Lemma run_request_persists o s id r :
  leave_requests s !! id = Some r →
  ∃ r', leave_requests (run o s) !! id = Some r'
        ∧ same_request r r'
        ∧ (r' = r
           ∨ (r_status r = "PENDING"
              ∧ ∃ st, o = UpdateLeaveStatus id st ∧ r' = set_status st r)).
Proof.
  intros Hr.
  assert (Hsame : ∀ s', leave_requests s' = leave_requests s →
            ∃ r', leave_requests s' !! id = Some r' ∧ same_request r r'
                  ∧ (r' = r
                     ∨ (r_status r = "PENDING"
                        ∧ ∃ st, o = UpdateLeaveStatus id st
                                ∧ r' = set_status st r))).
  { intros s' ->. exists r. split; [done|].
    split; [apply same_request_refl|by left]. }
  assert (Hupd : ∀ lid st row,
            o = UpdateLeaveStatus lid st →
            leave_requests s !! lid = Some row → r_status row = "PENDING" →
            ∃ r', <[lid := set_status st row]> (leave_requests s) !! id = Some r'
                  ∧ same_request r r'
                  ∧ (r' = r
                     ∨ (r_status r = "PENDING"
                        ∧ ∃ st, o = UpdateLeaveStatus id st
                                ∧ r' = set_status st r))).
  { intros lid st row -> Hrow Hp.
    destruct (decide (lid = id)) as [->|Hne].
    - simplify_eq. rewrite lookup_insert_eq. eexists. split; [done|].
      split; [by repeat split|]. right. split; [done|]. by exists st.
    - rewrite lookup_insert_ne by done. exists r. split; [done|].
      split; [apply same_request_refl|by left]. }
  destruct o as [n em d j b|eid sd ed reason|lid st|now]; simpl.
  - apply Hsame. apply add_employee_effect.
  - rewrite apply_leave_cascade.
    destruct (employees s !! eid); [|by apply Hsame].
    repeat case_decide; try by apply Hsame. simpl.
    exists r. split; [|split; [apply same_request_refl|by left]].
    rewrite lookup_insert_ne; [done|].
    intros Heq. rewrite <- Heq, next_rowid_fresh in Hr. discriminate.
  - rewrite update_leave_status_cascade.
    destruct (leave_requests s !! lid) as [row|] eqn:Hrow; [|by apply Hsame].
    destruct (decide (r_status row ≠ "PENDING")) as [|Hp]; [by apply Hsame|].
    apply dec_stable in Hp.
    destruct (decide (st = "APPROVED")) as [->|]; [|by eapply Hupd].
    destruct (employees s !! r_employee_id row); [|by apply Hsame].
    simpl. destruct (decide (_ > _)); [by apply Hsame|]. by eapply Hupd.
  - by apply Hsame.
Qed.

(** A row of [leave_requests] after an operation was there before, up to
    its status, or is the PENDING row that [apply_leave] has just inserted
    after its checks passed. *)
Lemma run_request_origin o s id r' :
  leave_requests (run o s) !! id = Some r' →
  (∃ r, leave_requests s !! id = Some r ∧ same_request r r')
  ∨ (leave_requests s !! id = None
     ∧ id = next_rowid (leave_requests_seq s) (leave_requests s)
     ∧ ∃ eid sd ed reason emp,
         o = ApplyLeave eid sd ed reason
         ∧ r' = pending_row s eid sd ed reason
         ∧ employees s !! eid = Some emp
         ∧ e_joining_date emp ≤ sd ∧ sd ≤ ed
         ∧ days_inclusive sd ed ≤ e_leave_balance emp
         ∧ ¬ map_Exists (λ _ r, overlaps eid sd ed r) (leave_requests s)).
Proof.
  intros Hr'.
  destruct (leave_requests s !! id) as [r|] eqn:Hr.
  - left. exists r. split; [done|].
    destruct (run_request_persists o s id r Hr) as (r'' & Hr'' & Hsame & _).
    by simplify_eq.
  - right. split; [done|].
    destruct o as [n em d j b|eid sd ed reason|lid st|now]; simpl in Hr'.
    + destruct (add_employee_effect n em d j b s) as [Heq _].
      rewrite Heq in Hr'. congruence.
    + rewrite apply_leave_cascade in Hr'.
      destruct (employees s !! eid) as [emp|] eqn:Hemp;
        [|simpl in Hr'; congruence].
      repeat case_decide; simpl in Hr'; try congruence.
      apply lookup_insert_Some in Hr' as [[<- <-]|[_ ?]]; [|congruence].
      split; [done|]. exists eid, sd, ed, reason, emp.
      repeat split; (done || lia).
    + rewrite update_leave_status_cascade in Hr'.
      destruct (leave_requests s !! lid) as [row|] eqn:Hrow;
        [|simpl in Hr'; congruence].
      assert (lid ≠ id) by congruence.
      repeat case_decide; simpl in Hr'; try congruence.
      * destruct (employees s !! r_employee_id row);
          [|simpl in Hr'; congruence].
        simpl in Hr'. case_decide; simpl in Hr'; [congruence|].
        rewrite lookup_insert_ne in Hr' by done. congruence.
      * rewrite lookup_insert_ne in Hr' by done. congruence.
    + congruence.
Qed.

(** ** Referential integrity and well-formed requests *)

Lemma run_preserves_well_formed o s :
  requests_well_formed s → requests_well_formed (run o s).
Proof.
  intros Hs id r' Hr'.
  assert (Hold : ∀ eid emp, employees s !! eid = Some emp →
            ∃ emp', employees (run o s) !! eid = Some emp'
                    ∧ e_joining_date emp' = e_joining_date emp).
  { intros eid emp Hemp.
    destruct (run_employee_persists o s eid emp Hemp)
      as (emp' & Hemp' & (_ & _ & _ & Hj & _) & _).
    by exists emp'. }
  apply run_request_origin in Hr'
    as [(r & Hr & (He & Hsd & Hed & _))
       |(_ & _ & eid & sd & ed & reason & emp & _ & -> & Hemp & Hj & Hle & _)].
  - destruct (Hs id r Hr) as (emp & Hemp & Hj & Hle).
    destruct (Hold _ _ Hemp) as (emp' & Hemp' & Hj').
    exists emp'. rewrite <- He, <- Hsd, <- Hed, Hj'. done.
  - destruct (Hold _ _ Hemp) as (emp' & Hemp' & Hj').
    exists emp'. simpl. rewrite Hj'. done.
Qed.

Lemma reachable_well_formed s : reachable s → requests_well_formed s.
Proof.
  induction 1 as [|s o _ IH _]; [|by apply run_preserves_well_formed].
  intros id r Hr. unfold init_db in Hr; simpl in Hr.
  by rewrite lookup_empty in Hr.
Qed.

(** In every state reached from a fresh database, each leave request
    belongs to an employee that exists, starts on or after that employee's
    joining date, and does not end before it starts (so its inclusive
    length is at least one day). *)
Theorem reachable_requests_well_formed (s : db) (id : Z) (r : leave_request) :
  reachable s →
  leave_requests s !! id = Some r →
  ∃ emp, employees s !! r_employee_id r = Some emp
         ∧ e_joining_date emp ≤ r_start_date r
         ∧ r_start_date r ≤ r_end_date r
         ∧ 1 ≤ days_inclusive (r_start_date r) (r_end_date r).
Proof.
  intros Hs Hr. destruct (reachable_well_formed s Hs id r Hr) as (emp & ? & ? & ?).
  exists emp. unfold days_inclusive. repeat split; (done || lia).
Qed.

Lemma reachable_requests_well_formed_witness :
  ∃ emp, employees demo !! 2 = Some emp
         ∧ e_joining_date emp ≤ 150
         ∧ 150 ≤ 152
         ∧ 1 ≤ days_inclusive 150 152.
Proof.
  apply (reachable_requests_well_formed demo 3
           (LeaveRequest 2 150 152 None "PENDING" 0) demo_reachable).
  vm_compute. reflexivity.
Defined.

(** In a reachable state [update_leave_status] never trips over a missing
    employee: it commits, or raises one of "Leave request not found",
    "Only pending requests can be updated" and, for APPROVED only,
    "Insufficient balance at approval time", leaving the store as it was. *)
Theorem update_leave_status_outcomes (s : db) (leave_id : Z) (new_status : string) :
  reachable s →
  let res := update_leave_status leave_id new_status s in
  res.1 = inr tt
  ∨ res = (inl RequestNotFound, s)
  ∨ res = (inl NotPending, s)
  ∨ (new_status = "APPROVED" ∧ res = (inl InsufficientBalanceAtApproval, s)).
Proof.
  intros Hs res. subst res. rewrite update_leave_status_cascade.
  destruct (leave_requests s !! leave_id) as [row|] eqn:Hrow; [|by auto].
  destruct (decide (r_status row ≠ "PENDING")); [by auto|].
  destruct (decide (new_status = "APPROVED")); [|by auto].
  destruct (reachable_well_formed s Hs _ _ Hrow) as (emp & -> & _).
  simpl. destruct (decide (_ > _)); by auto 6.
Qed.

Lemma update_leave_status_outcomes_witness :
  (update_leave_status 3 "APPROVED" demo).1 = inr tt
  ∨ update_leave_status 3 "APPROVED" demo = (inl RequestNotFound, demo)
  ∨ update_leave_status 3 "APPROVED" demo = (inl NotPending, demo)
  ∨ ("APPROVED" = "APPROVED"
     ∧ update_leave_status 3 "APPROVED" demo
       = (inl InsufficientBalanceAtApproval, demo)).
Proof. exact (update_leave_status_outcomes demo 3 "APPROVED" demo_reachable). Defined.

(** ** Unique emails *)

Lemma run_preserves_emails_unique o s : emails_unique s → emails_unique (run o s).
Proof.
  intros Hs i j a b Ha Hb Hab.
  apply run_employee_origin in Ha
    as [(a0 & Ha0 & (_ & Hea & _))|(_ & Hi & Hfresh_a & _)];
  apply run_employee_origin in Hb
    as [(b0 & Hb0 & (_ & Heb & _))|(_ & Hj & Hfresh_b & _)].
  - apply (Hs i j a0 b0); congruence.
  - exfalso. apply Hfresh_b. exists i, a0. split; congruence.
  - exfalso. apply Hfresh_a. exists j, b0. split; congruence.
  - congruence.
Qed.

(** The [UNIQUE] constraint on [email]: in every reachable state no two
    employees share an email, and registering an email that some employee
    already has raises [IntegrityError] and leaves the store as it was. *)
Theorem emails_stay_unique :
  (∀ s : db, reachable s →
     ∀ i j a b,
       employees s !! i = Some a → employees s !! j = Some b →
       e_email a = e_email b → i = j)
  ∧ (∀ (s : db) i e name department joining_date leave_balance,
       employees s !! i = Some e →
       add_employee name (e_email e) department joining_date leave_balance s
       = (inl (IntegrityError "UNIQUE constraint failed: employees.email"), s)).
Proof.
  split.
  - intros s Hs. fold (emails_unique s).
    induction Hs as [|s o _ IH _]; [|by apply run_preserves_emails_unique].
    intros i j a b Ha. unfold init_db in Ha; simpl in Ha.
    by rewrite lookup_empty in Ha.
  - intros s i e n d j b He. rewrite add_employee_cascade.
    rewrite decide_True; [done|]. by exists i, e.
Qed.

Lemma emails_stay_unique_witness :
  emails_unique demo
  ∧ add_employee "Robert" "bob@x.org" "Finance" 200 10 demo
    = (inl (IntegrityError "UNIQUE constraint failed: employees.email"), demo).
Proof.
  destruct emails_stay_unique as [Huniq Hdup]. split.
  - exact (Huniq demo demo_reachable).
  - apply (Hdup demo 1 (Employee "Bob" "bob@x.org" "HR" 100 24 0)).
    vm_compute. reflexivity.
Defined.

(** ** Employees are never deleted and only lose balance *)

Lemma same_person_trans a b c : same_person a b → same_person b c → same_person a c.
Proof. unfold same_person. intuition congruence. Qed.

Lemma same_request_trans a b c :
  same_request a b → same_request b c → same_request a c.
Proof. unfold same_request. intuition congruence. Qed.

(** From a reachable state on, whatever operations follow, an employee row
    stays in the table with the same name, email, department, joining date
    and creation time, and its balance never goes up. *)
Theorem employee_rows_only_lose_balance (s : db) (os : list op) (id : Z)
    (e : employee) :
  reachable s →
  employees s !! id = Some e →
  ∃ e', employees (run_all os s) !! id = Some e'
        ∧ same_person e e'
        ∧ e_leave_balance e' ≤ e_leave_balance e.
Proof.
  revert s e. induction os as [|o os IH]; intros s e Hs He.
  - exists e. split; [done|]. split; [apply same_person_refl|lia].
  - destruct (run_employee_persists o s id e He) as (e1 & He1 & Hsame1 & Hbal).
    assert (Hle : e_leave_balance e1 ≤ e_leave_balance e).
    { destruct Hbal as [->|(lid & row & _ & Hrow & _ & _ & _ & ->)]; [lia|].
      destruct (reachable_well_formed s Hs _ _ Hrow) as (_ & _ & _ & ?).
      unfold days_inclusive. lia. }
    destruct (IH (run o s) e1) as (e' & He' & Hsame' & Hle');
      [by apply reachable_step|done|].
    exists e'. split; [done|].
    split; [by eapply same_person_trans|lia].
Qed.

Lemma employee_rows_only_lose_balance_witness :
  ∃ e', employees (run_all [UpdateLeaveStatus 1 "APPROVED";
                            ApplyLeave 1 300 301 None] demo) !! 1 = Some e'
        ∧ same_person (Employee "Bob" "bob@x.org" "HR" 100 24 0) e'
        ∧ e_leave_balance e' ≤ 24.
Proof.
  apply (employee_rows_only_lose_balance demo
           [UpdateLeaveStatus 1 "APPROVED"; ApplyLeave 1 300 301 None] 1
           (Employee "Bob" "bob@x.org" "HR" 100 24 0) demo_reachable).
  vm_compute. reflexivity.
Defined.

(** ** The life of a request *)

Lemma run_all_request_persists os s id r :
  leave_requests s !! id = Some r →
  ∃ r', leave_requests (run_all os s) !! id = Some r'
        ∧ same_request r r'
        ∧ (r_status r ≠ "PENDING" → r' = r).
Proof.
  revert s r. induction os as [|o os IH]; intros s r Hr.
  - exists r. split; [done|]. split; [apply same_request_refl|done].
  - destruct (run_request_persists o s id r Hr) as (r1 & Hr1 & Hsame1 & Hst).
    destruct (IH (run o s) r1 Hr1) as (r' & Hr' & Hsame' & Hfin).
    exists r'. split; [done|]. split; [by eapply same_request_trans|].
    intros Hnp. destruct Hst as [->|[Hp _]]; [by apply Hfin|done].
Qed.

(** Whatever operations follow, a leave request stays in the table with
    the same employee, dates, reason and creation time; and once its
    status is anything but PENDING the row never changes again. *)
Theorem request_lifecycle (s : db) (os : list op) (id : Z) (r : leave_request) :
  leave_requests s !! id = Some r →
  ∃ r', leave_requests (run_all os s) !! id = Some r'
        ∧ same_request r r'
        ∧ (r_status r ≠ "PENDING" → r' = r).
Proof. apply run_all_request_persists. Qed.

Lemma request_lifecycle_witness :
  ∃ r', leave_requests
          (run_all [UpdateLeaveStatus 2 "REJECTED"; ApplyLeave 2 140 141 None]
             demo) !! 2 = Some r'
        ∧ same_request (LeaveRequest 2 140 142 (Some "Vacation") "APPROVED" 0) r'
        ∧ ("APPROVED" ≠ "PENDING" →
           r' = LeaveRequest 2 140 142 (Some "Vacation") "APPROVED" 0).
Proof.
  apply (request_lifecycle demo
           [UpdateLeaveStatus 2 "REJECTED"; ApplyLeave 2 140 141 None] 2
           (LeaveRequest 2 140 142 (Some "Vacation") "APPROVED" 0)).
  vm_compute. reflexivity.
Defined.

Lemma update_leave_status_success s leave_id new_status :
  (update_leave_status leave_id new_status s).1 = inr tt →
  ∃ row, leave_requests s !! leave_id = Some row
         ∧ r_status row = "PENDING"
         ∧ leave_requests (update_leave_status leave_id new_status s).2 !! leave_id
           = Some (set_status new_status row).
Proof.
  rewrite update_leave_status_cascade.
  destruct (leave_requests s !! leave_id) as [row|] eqn:Hrow; [|done].
  destruct (decide (r_status row ≠ "PENDING")) as [|Hp]; [done|].
  apply dec_stable in Hp.
  destruct (decide (new_status = "APPROVED")).
  - destruct (employees s !! r_employee_id row); [|done].
    simpl. destruct (decide (_ > _)); [done|]. simpl. intros _.
    exists row. by rewrite lookup_insert_eq.
  - simpl. intros _. exists row. by rewrite lookup_insert_eq.
Qed.

(** A decision is final: after [update_leave_status] has committed a
    status other than "PENDING" for a request, every later decision on
    that request, after whatever other operations, raises "Only pending
    requests can be updated" and writes nothing; in particular an
    approval is deducted once. *)
Theorem decision_is_final (s : db) (leave_id : Z) (new_status : string)
    (os : list op) (later_status : string) :
  (update_leave_status leave_id new_status s).1 = inr tt →
  new_status ≠ "PENDING" →
  let s' := run_all os (update_leave_status leave_id new_status s).2 in
  update_leave_status leave_id later_status s' = (inl NotPending, s').
Proof.
  intros Hok Hnp s'.
  destruct (update_leave_status_success _ _ _ Hok) as (row & _ & _ & Hnew).
  destruct (run_all_request_persists os _ _ _ Hnew) as (r' & Hr' & _ & Hfin).
  rewrite (Hfin Hnp) in Hr'. fold s' in Hr'.
  rewrite update_leave_status_cascade, Hr'. simpl.
  by rewrite decide_True.
Qed.

Lemma decision_is_final_witness :
  update_leave_status 1 "APPROVED"
    (run_all [ApplyLeave 1 300 301 None]
       (update_leave_status 1 "APPROVED" demo).2)
  = (inl NotPending,
     run_all [ApplyLeave 1 300 301 None]
       (update_leave_status 1 "APPROVED" demo).2).
Proof.
  apply (decision_is_final demo 1 "APPROVED" [ApplyLeave 1 300 301 None]
           "APPROVED").
  - vm_compute. reflexivity.
  - discriminate.
Defined.

(** ** Balance accounting *)

Lemma sum_approved_perm eid l1 l2 :
  l1 ≡ₚ l2 → sum_approved eid l1 = sum_approved eid l2.
Proof.
  unfold sum_approved.
  induction 1 as [|x l1 l2 _ IH|x y l|l1 l2 l3 _ IH1 _ IH2]; simpl; lia.
Qed.

Lemma sum_approved_insert_fresh eid (m : gmap Z leave_request) i r :
  m !! i = None →
  sum_approved eid (map_to_list (<[i := r]> m))
  = approved_span eid r + sum_approved eid (map_to_list m).
Proof.
  intros Hi. by rewrite (sum_approved_perm _ _ _ (map_to_list_insert m i r Hi)).
Qed.

Lemma sum_approved_insert_existing eid (m : gmap Z leave_request) i x y :
  m !! i = Some x →
  sum_approved eid (map_to_list (<[i := y]> m))
  = sum_approved eid (map_to_list m) - approved_span eid x + approved_span eid y.
Proof.
  intros Hi. rewrite <- insert_delete_eq.
  rewrite sum_approved_insert_fresh by apply lookup_delete_eq.
  rewrite <- (sum_approved_perm _ _ _ (map_to_list_delete m i x Hi)).
  simpl. lia.
Qed.

Lemma sum_approved_none eid (m : gmap Z leave_request) :
  (∀ k r, m !! k = Some r → r_employee_id r ≠ eid) →
  sum_approved eid (map_to_list m) = 0.
Proof.
  intros Hm.
  assert (Hall : ∀ row, row ∈ map_to_list m → approved_span eid row.2 = 0).
  { intros [k r] Hkr%elem_of_map_to_list. unfold approved_span; simpl.
    rewrite decide_False; [done|]. intros [? _]. by apply (Hm k r). }
  induction (map_to_list m) as [|row l IH]; simpl; [done|].
  rewrite Hall by (by left). rewrite IH; [done|].
  intros row' ?. apply Hall. by right.
Qed.

Lemma approved_span_set_status eid st row :
  approved_span eid (set_status st row)
  = if decide (r_employee_id row = eid ∧ st = "APPROVED")
    then days_inclusive (r_start_date row) (r_end_date row) else 0.
Proof. done. Qed.

(** One operation keeps, for every employee, the balance plus the days of
    that employee's APPROVED requests. *)
Lemma run_conserves o s id e :
  employees s !! id = Some e →
  ∃ e', employees (run o s) !! id = Some e'
        ∧ e_leave_balance e' + approved_days id (run o s)
          = e_leave_balance e + approved_days id s.
Proof.
  intros He.
  assert (Hsame : ∀ s', employees s' = employees s →
            leave_requests s' = leave_requests s →
            ∃ e', employees s' !! id = Some e'
                  ∧ e_leave_balance e' + approved_days id s'
                    = e_leave_balance e + approved_days id s).
  { intros s' Hemp Hreq. exists e. unfold approved_days.
    by rewrite Hemp, Hreq. }
  destruct o as [n em d j b|eid sd ed reason|lid st|now]; simpl.
  - rewrite add_employee_cascade. case_decide; [by apply Hsame|]. simpl.
    exists e. split; [|done].
    rewrite lookup_insert_ne; [done|].
    intros Heq. rewrite <- Heq, next_rowid_fresh in He. discriminate.
  - rewrite apply_leave_cascade.
    destruct (employees s !! eid); [|by apply Hsame].
    repeat case_decide; try by apply Hsame. simpl.
    exists e. split; [done|]. unfold approved_days; simpl.
    rewrite sum_approved_insert_fresh by apply next_rowid_fresh.
    unfold approved_span, pending_row; simpl.
    rewrite decide_False; [lia|]. intros [_ ?]; discriminate.
  - rewrite update_leave_status_cascade.
    destruct (leave_requests s !! lid) as [row|] eqn:Hrow; [|by apply Hsame].
    destruct (decide (r_status row ≠ "PENDING")) as [|Hp]; [by apply Hsame|].
    apply dec_stable in Hp.
    assert (Hold : approved_span id row = 0).
    { unfold approved_span. rewrite decide_False; [done|].
      intros [_ ?]. congruence. }
    destruct (decide (st = "APPROVED")) as [->|Hne].
    + destruct (employees s !! r_employee_id row) as [e0|] eqn:He0;
        [|by apply Hsame].
      simpl. destruct (decide (_ > _)); [by apply Hsame|]. simpl.
      unfold approved_days; simpl.
      rewrite (sum_approved_insert_existing _ _ _ _ _ Hrow), Hold.
      rewrite approved_span_set_status.
      destruct (decide (r_employee_id row = id)) as [Hid|Hid].
      * rewrite Hid in He0. simplify_eq. rewrite lookup_insert_eq.
        eexists. split; [done|]. rewrite decide_True by done. simpl. lia.
      * rewrite lookup_insert_ne by done. exists e. split; [done|].
        rewrite decide_False by (by intros [? _]). lia.
    + simpl. exists e. split; [done|]. unfold approved_days; simpl.
      rewrite (sum_approved_insert_existing _ _ _ _ _ Hrow), Hold.
      rewrite approved_span_set_status.
      rewrite decide_False by (by intros [_ ?]). lia.
  - by apply (Hsame (Db (employees s) (employees_seq s) (leave_requests s)
                       (leave_requests_seq s) now)).
Qed.

Lemma run_all_conserves os s id e :
  employees s !! id = Some e →
  ∃ e', employees (run_all os s) !! id = Some e'
        ∧ e_leave_balance e' + approved_days id (run_all os s)
          = e_leave_balance e + approved_days id s.
Proof.
  revert s e. induction os as [|o os IH]; intros s e He; [by exists e|].
  destruct (run_conserves o s id e He) as (e1 & He1 & Heq1).
  destruct (IH (run o s) e1 He1) as (e' & He' & Heq').
  exists e'. split; [done|]. simpl. lia.
Qed.

(** Accounting is exact: whatever operations are run, from any store, the
    balance of an employee plus the inclusive lengths of that employee's
    APPROVED requests stays the same; nothing but an approval takes days
    off, and every approval takes off exactly the days it approves. *)
Theorem balance_plus_approved_conserved (s : db) (os : list op) (id : Z)
    (e : employee) :
  employees s !! id = Some e →
  ∃ e', employees (run_all os s) !! id = Some e'
        ∧ e_leave_balance e' + approved_days id (run_all os s)
          = e_leave_balance e + approved_days id s.
Proof. apply run_all_conserves. Qed.

Lemma balance_plus_approved_conserved_witness :
  ∃ e', employees (run_all [UpdateLeaveStatus 1 "APPROVED";
                            UpdateLeaveStatus 3 "REJECTED"] demo) !! 1 = Some e'
        ∧ e_leave_balance e'
          + approved_days 1 (run_all [UpdateLeaveStatus 1 "APPROVED";
                                      UpdateLeaveStatus 3 "REJECTED"] demo)
          = 24 + approved_days 1 demo.
Proof.
  apply (balance_plus_approved_conserved demo
           [UpdateLeaveStatus 1 "APPROVED"; UpdateLeaveStatus 3 "REJECTED"] 1
           (Employee "Bob" "bob@x.org" "HR" 100 24 0)).
  vm_compute. reflexivity.
Defined.

Lemma run_all_employee_nonneg os s id e :
  employees s !! id = Some e → 0 ≤ e_leave_balance e →
  ∃ e', employees (run_all os s) !! id = Some e' ∧ 0 ≤ e_leave_balance e'.
Proof.
  revert s e. induction os as [|o os IH]; intros s e He Hpos; [by exists e|].
  destruct (run_employee_persists o s id e He) as (e1 & He1 & _ & Hbal).
  apply (IH (run o s) e1 He1).
  destruct Hbal as [Heq|(lid & row & _ & _ & _ & _ & ? & Heq)];
    rewrite Heq; lia.
Qed.

(** An employee registered in a reachable state with initial balance
    [leave_balance] gets the next id, and from then on, whatever
    operations follow, [get_balance] returns the initial balance minus the
    inclusive lengths of that employee's APPROVED requests; so, when the
    initial balance is not negative, the approved days never exceed it. *)
Theorem balance_is_initial_minus_approved (s : db)
    (name email department : string) (joining_date leave_balance : Z)
    (os : list op) :
  reachable s →
  (add_employee name email department joining_date leave_balance s).1 = inr tt →
  let id := employees_seq s + 1 in
  let s' :=
    run_all os (add_employee name email department joining_date leave_balance s).2
  in
  get_balance id s' = (inr (leave_balance - approved_days id s'), s')
  ∧ (0 ≤ leave_balance → approved_days id s' ≤ leave_balance).
Proof.
  intros Hs Hok id s'. subst s'.
  pose proof (reachable_dense s Hs) as Hd.
  rewrite add_employee_cascade in Hok |- *.
  case_decide; [done|]. clear Hok. simpl.
  rewrite (next_rowid_dense _ _ (proj1 Hd)). fold id.
  set (row := Employee name email department joining_date leave_balance
                (current_timestamp s)).
  set (s1 := Db _ _ _ _ _).
  assert (Hrow : employees s1 !! id = Some row) by apply lookup_insert_eq.
  destruct (run_all_conserves os s1 id row Hrow) as (e' & He' & Heq).
  assert (Hzero : approved_days id s1 = 0).
  { unfold approved_days, s1; simpl. apply sum_approved_none.
    intros k r Hr Heid.
    destruct (reachable_well_formed s Hs k r Hr) as (emp & Hemp & _).
    rewrite Heid in Hemp.
    assert (is_Some (employees s !! id)) as Hsome by (by eexists).
    apply (proj2 (proj1 Hd)) in Hsome. unfold id in Hsome. lia. }
  rewrite Hzero in Heq. simpl in Heq. split.
  - rewrite get_balance_cascade, He'. do 2 f_equal. lia.
  - intros Hpos.
    destruct (run_all_employee_nonneg os s1 id row Hrow Hpos) as (e'' & He'' & ?).
    simplify_eq. lia.
Qed.

Lemma balance_is_initial_minus_approved_witness :
  get_balance 3
    (run_all [ApplyLeave 3 210 213 None; UpdateLeaveStatus 4 "APPROVED"]
       (add_employee "Cy" "cy@x.org" "Finance" 200 10 demo).2)
  = (inr (10 - approved_days 3
                 (run_all [ApplyLeave 3 210 213 None;
                           UpdateLeaveStatus 4 "APPROVED"]
                    (add_employee "Cy" "cy@x.org" "Finance" 200 10 demo).2)),
     run_all [ApplyLeave 3 210 213 None; UpdateLeaveStatus 4 "APPROVED"]
       (add_employee "Cy" "cy@x.org" "Finance" 200 10 demo).2)
  ∧ (0 ≤ 10 →
     approved_days 3
       (run_all [ApplyLeave 3 210 213 None; UpdateLeaveStatus 4 "APPROVED"]
          (add_employee "Cy" "cy@x.org" "Finance" 200 10 demo).2) ≤ 10).
Proof.
  apply (balance_is_initial_minus_approved demo "Cy" "cy@x.org" "Finance" 200 10
           [ApplyLeave 3 210 213 None; UpdateLeaveStatus 4 "APPROVED"]
           demo_reachable).
  vm_compute. reflexivity.
Defined.

(** ** [has_overlap] *)

(** In a reachable state and for a range that is not reversed,
    [has_overlap] reads without writing and answers true exactly when some
    PENDING or APPROVED request of the employee has a day in common with
    the range. *)
Theorem has_overlap_shares_a_day (s : db) (employee_id start_date end_date : Z) :
  reachable s →
  start_date ≤ end_date →
  ∃ b : bool,
    has_overlap employee_id start_date end_date s = (inr b, s)
    ∧ (b = true ↔
       ∃ id r day,
         leave_requests s !! id = Some r
         ∧ r_employee_id r = employee_id
         ∧ (r_status r = "PENDING" ∨ r_status r = "APPROVED")
         ∧ r_start_date r ≤ day ∧ day ≤ r_end_date r
         ∧ start_date ≤ day ∧ day ≤ end_date).
Proof.
  intros Hs Hle. eexists. split; [reflexivity|].
  rewrite bool_decide_eq_true. split.
  - intros (id & r & Hr & He & Hst & H1 & H2).
    destruct (reachable_well_formed s Hs id r Hr) as (_ & _ & _ & Hwf).
    exists id, r, (Z.max (r_start_date r) start_date).
    repeat split; (done || lia).
  - intros (id & r & day & Hr & He & Hst & ? & ? & ? & ?).
    exists id, r. split; [done|]. repeat split; (done || lia).
Qed.

Lemma has_overlap_shares_a_day_witness :
  ∃ b : bool,
    has_overlap 1 135 139 demo = (inr b, demo)
    ∧ (b = true ↔
       ∃ id r day,
         leave_requests demo !! id = Some r
         ∧ r_employee_id r = 1
         ∧ (r_status r = "PENDING" ∨ r_status r = "APPROVED")
         ∧ r_start_date r ≤ day ∧ day ≤ r_end_date r
         ∧ 135 ≤ day ∧ day ≤ 139).
Proof.
  apply (has_overlap_shares_a_day demo 1 135 139 demo_reachable). lia.
Defined.

(** ** [list_leaves] *)

Lemma filter_nodup_keys {A} (f : Z * A → bool) (rows : list (Z * A)) :
  NoDup rows.*1 → NoDup (List.filter f rows).*1.
Proof.
  induction rows as [|x rows IH]; simpl; [done|].
  intros [Hx Hnd]%NoDup_cons. destruct (f x); simpl; [|by apply IH].
  apply NoDup_cons. split; [|by apply IH].
  intros (y & Hy1 & Hy2)%list_elem_of_fmap. apply Hx.
  apply list_elem_of_fmap. exists y. split; [done|].
  apply list_elem_of_In. apply list_elem_of_In in Hy2.
  by apply filter_In in Hy2 as [? _].
Qed.

Lemma list_leaves_elem employee_id status s id r :
  (id, r) ∈ (merge_sort created_at_desc
               (List.filter (where_leaves employee_id status)
                  (map_to_list (leave_requests s)))) ↔
  leave_requests s !! id = Some r
  ∧ match employee_id with Some i => r_employee_id r = i | None => True end
  ∧ match status with
    | Some st => st = "" ∨ r_status r = st
    | None => True
    end.
Proof.
  rewrite merge_sort_Permutation, list_elem_of_In, filter_In,
    <- list_elem_of_In, elem_of_map_to_list.
  unfold where_leaves; simpl. rewrite andb_true_iff.
  assert (He : match employee_id with
               | Some i => bool_decide (r_employee_id r = i)
               | None => true
               end = true
               ↔ match employee_id with
                 | Some i => r_employee_id r = i
                 | None => True
                 end).
  { destruct employee_id; [apply bool_decide_eq_true|done]. }
  assert (Hst : match status with
                | Some st => if decide (st = "") then true
                             else bool_decide (r_status r = st)
                | None => true
                end = true
                ↔ match status with
                  | Some st => st = "" ∨ r_status r = st
                  | None => True
                  end).
  { destruct status as [st|]; [|done].
    destruct (decide (st = "")); [by intuition|].
    rewrite bool_decide_eq_true. by intuition. }
  rewrite He, Hst. done.
Qed.

Lemma sum_approved_filter eid (f : Z * leave_request → bool) l :
  (∀ row, f row = false → approved_span eid row.2 = 0) →
  sum_approved eid (List.filter f l) = sum_approved eid l.
Proof.
  intros Hf. induction l as [|row l IH]; simpl; [done|].
  destruct (f row) eqn:Hrow; simpl; [by rewrite IH|].
  rewrite IH, (Hf row Hrow). lia.
Qed.

(** The balance tab, which calls [get_balance] and then [list_leaves] with
    the same id: for an employee that exists, [get_balance] returns the
    stored balance, and [list_leaves(employee_id, None)] reads without
    writing and returns the history of that employee: every request of the
    employee and no other, each once, latest [created_at] first, whose
    APPROVED lengths add up to the employee's approved days.  An empty
    status string filters nothing, like [None]. *)
Theorem list_leaves_history (s : db) (employee_id : Z) (emp : employee) :
  employees s !! employee_id = Some emp →
  get_balance employee_id s = (inr (e_leave_balance emp), s)
  ∧ ∃ rows,
      list_leaves (Some employee_id) None s = (inr rows, s)
      ∧ list_leaves (Some employee_id) (Some "") s = (inr rows, s)
      ∧ NoDup rows.*1
      ∧ (∀ id r, (id, r) ∈ rows ↔
           leave_requests s !! id = Some r ∧ r_employee_id r = employee_id)
      ∧ StronglySorted (λ a b, r_created_at b.2 ≤ r_created_at a.2) rows
      ∧ sum_approved employee_id rows = approved_days employee_id s.
Proof.
  intros Hemp. split; [by rewrite get_balance_cascade, Hemp|].
  eexists. split; [reflexivity|]. split; [reflexivity|].
  split; [|split; [|split]].
  - rewrite merge_sort_Permutation.
    apply filter_nodup_keys, NoDup_fst_map_to_list.
  - intros id r. rewrite list_leaves_elem. tauto.
  - apply (StronglySorted_merge_sort created_at_desc).
  - rewrite (sum_approved_perm _ _ _ (merge_sort_Permutation _ _)).
    apply sum_approved_filter. intros [k r]. unfold where_leaves; simpl.
    rewrite andb_true_r. intros Hne%bool_decide_eq_false.
    unfold approved_span. rewrite decide_False; [done|]. by intros [? _].
Qed.

Lemma list_leaves_history_witness :
  get_balance 2 demo = (inr 2, demo)
  ∧ ∃ rows,
      list_leaves (Some 2) None demo = (inr rows, demo)
      ∧ list_leaves (Some 2) (Some "") demo = (inr rows, demo)
      ∧ NoDup rows.*1
      ∧ (∀ id r, (id, r) ∈ rows ↔
           leave_requests demo !! id = Some r ∧ r_employee_id r = 2)
      ∧ StronglySorted (λ a b, r_created_at b.2 ≤ r_created_at a.2) rows
      ∧ sum_approved 2 rows = approved_days 2 demo.
Proof.
  apply (list_leaves_history demo 2
           (Employee "Alice" "alice@x.org" "Sales" 100 2 0)).
  vm_compute. reflexivity.
Defined.

(** What the review tab relies on: in a reachable state, every request
    that [list_leaves(status="PENDING")] shows can be rejected, and
    approving it either commits or raises "Insufficient balance at
    approval time". *)
Theorem listed_pending_can_be_decided (s : db) (rows : list (Z * leave_request))
    (id : Z) (r : leave_request) :
  reachable s →
  list_leaves None (Some "PENDING") s = (inr rows, s) →
  (id, r) ∈ rows →
  (update_leave_status id "REJECTED" s).1 = inr tt
  ∧ ((update_leave_status id "APPROVED" s).1 = inr tt
     ∨ update_leave_status id "APPROVED" s
       = (inl InsufficientBalanceAtApproval, s)).
Proof.
  intros Hs Hl Hin. unfold list_leaves, query in Hl. injection Hl as <-.
  apply list_leaves_elem in Hin as (Hr & _ & [?|Hp]); [done|].
  rewrite !update_leave_status_cascade, Hr.
  destruct (decide (r_status r ≠ "PENDING")) as [|_]; [done|].
  split; [by destruct (decide ("REJECTED" = "APPROVED"))|].
  destruct (decide ("APPROVED" = "APPROVED")) as [_|]; [|done].
  destruct (reachable_well_formed s Hs _ _ Hr) as (emp & -> & _).
  simpl. destruct (decide (_ > _)); by auto.
Qed.

Lemma listed_pending_can_be_decided_witness :
  (update_leave_status 3 "REJECTED" demo).1 = inr tt
  ∧ ((update_leave_status 3 "APPROVED" demo).1 = inr tt
     ∨ update_leave_status 3 "APPROVED" demo
       = (inl InsufficientBalanceAtApproval, demo)).
Proof.
  assert (Hl : ∃ rows, list_leaves None (Some "PENDING") demo = (inr rows, demo)
                       ∧ (3, LeaveRequest 2 150 152 None "PENDING" 0) ∈ rows).
  { eexists. split; [reflexivity|]. apply list_leaves_elem.
    split; [vm_compute; reflexivity|]. split; [done|by right]. }
  destruct Hl as (rows & Hrows & Hin).
  exact (listed_pending_can_be_decided demo rows 3 _ demo_reachable Hrows Hin).
Defined.

(** ** Round trips *)

(** A request that [apply_leave] has accepted is found by [list_leaves]
    for that employee and status PENDING, under an id that was free; the
    employee's balance as [get_balance] reports it is what it was; and
    submitting the same dates again is refused as overlapping. *)
Theorem apply_leave_then_listed (s : db) (employee_id start_date end_date : Z)
    (reason : option string) :
  (apply_leave employee_id start_date end_date reason s).1 = inr tt →
  let s' := (apply_leave employee_id start_date end_date reason s).2 in
  let id := next_rowid (leave_requests_seq s) (leave_requests s) in
  leave_requests s !! id = None
  ∧ (∃ rows,
       list_leaves (Some employee_id) (Some "PENDING") s' = (inr rows, s')
       ∧ (id, LeaveRequest employee_id start_date end_date reason "PENDING"
                (current_timestamp s)) ∈ rows)
  ∧ (∃ bal, get_balance employee_id s = (inr bal, s)
            ∧ get_balance employee_id s' = (inr bal, s'))
  ∧ (∀ reason',
       apply_leave employee_id start_date end_date reason' s'
       = (inl OverlappingRequest, s')).
Proof.
  intros Hok s' id. subst s'. rewrite apply_leave_cascade in Hok |- *.
  destruct (employees s !! employee_id) as [emp|] eqn:Hemp; [|done].
  destruct (decide (end_date < start_date)); [done|].
  destruct (decide (start_date < e_joining_date emp)); [done|].
  destruct (decide (map_Exists _ _)); [done|].
  destruct (decide (_ > _)); [done|]. clear Hok. simpl. fold id.
  set (s' := Db _ _ _ _ _).
  assert (Hnew : leave_requests s' !! id
                 = Some (pending_row s employee_id start_date end_date reason))
    by apply lookup_insert_eq.
  split; [apply next_rowid_fresh|]. split; [|split].
  - eexists. split; [reflexivity|]. apply list_leaves_elem.
    split; [exact Hnew|]. split; [done|by right].
  - exists (e_leave_balance emp). rewrite !get_balance_cascade.
    replace (employees s') with (employees s) by done. by rewrite Hemp.
  - intros reason'. rewrite apply_leave_cascade.
    replace (employees s') with (employees s) by done. rewrite Hemp.
    rewrite !decide_False by done.
    rewrite decide_True; [done|].
    exists id, (pending_row s employee_id start_date end_date reason).
    split; [exact Hnew|]. unfold overlaps, pending_row; simpl.
    repeat split; (by left) || lia.
Qed.

Lemma apply_leave_then_listed_witness :
  leave_requests demo !! next_rowid (leave_requests_seq demo) (leave_requests demo)
  = None
  ∧ (∃ rows,
       list_leaves (Some 1) (Some "PENDING") (apply_leave 1 300 301 None demo).2
       = (inr rows, (apply_leave 1 300 301 None demo).2)
       ∧ (next_rowid (leave_requests_seq demo) (leave_requests demo),
          LeaveRequest 1 300 301 None "PENDING" (current_timestamp demo)) ∈ rows)
  ∧ (∃ bal, get_balance 1 demo = (inr bal, demo)
            ∧ get_balance 1 (apply_leave 1 300 301 None demo).2
              = (inr bal, (apply_leave 1 300 301 None demo).2))
  ∧ (∀ reason',
       apply_leave 1 300 301 reason' (apply_leave 1 300 301 None demo).2
       = (inl OverlappingRequest, (apply_leave 1 300 301 None demo).2)).
Proof.
  apply (apply_leave_then_listed demo 1 300 301 None).
  vm_compute. reflexivity.
Defined.

Lemma order_by_id_desc_insert_max (m : gmap Z employee) id row :
  (∀ k v, m !! k = Some v → k < id) →
  order_by_id_desc (map_to_list (<[id := row]> m))
  = (id, row) :: order_by_id_desc (map_to_list m).
Proof.
  intros Hmax.
  assert (Hfresh : m !! id = None).
  { destruct (m !! id) as [v|] eqn:Hv; [|done]. apply Hmax in Hv. lia. }
  apply (StronglySorted_unique_strong (λ a b : Z * employee, b.1 < a.1)).
  - intros x1 x2 _ _ ??. lia.
  - apply order_by_id_desc_sorted, NoDup_fst_map_to_list.
  - constructor; [apply order_by_id_desc_sorted, NoDup_fst_map_to_list|].
    apply Forall_forall. intros [k v] Hkv. simpl.
    apply order_by_id_desc_elem, elem_of_map_to_list in Hkv. by apply (Hmax k v).
  - unfold order_by_id_desc. rewrite !merge_sort_Permutation.
    by apply map_to_list_insert.
Qed.

(** An employee that [add_employee] has accepted gets an id larger than
    every id in the table; [get_employee] then returns the row as given,
    [get_balance] the initial balance, every other employee is as before,
    and [list_employees()] shows the new row first, followed by the list
    as it was. *)
Theorem add_employee_then_listed (s : db) (name email department : string)
    (joining_date leave_balance : Z) :
  (add_employee name email department joining_date leave_balance s).1 = inr tt →
  let s' := (add_employee name email department joining_date leave_balance s).2 in
  let id := next_rowid (employees_seq s) (employees s) in
  let row := Employee name email department joining_date leave_balance
               (current_timestamp s) in
  (∀ k e, employees s !! k = Some e → k < id ∧ employees s' !! k = Some e)
  ∧ get_employee id s' = (inr (Some (id, row)), s')
  ∧ get_balance id s' = (inr leave_balance, s')
  ∧ (∀ rows, list_employees None s = (inr rows, s) →
             list_employees None s' = (inr ((id, row) :: rows), s')).
Proof.
  intros Hok s' id row. subst s'. rewrite add_employee_cascade in Hok |- *.
  case_decide; [done|]. clear Hok. simpl. fold id row.
  assert (Hmax : ∀ k e, employees s !! k = Some e → k < id).
  { intros k e Hk. apply max_rowid_ge in Hk. unfold id, next_rowid. lia. }
  split; [|split; [|split]].
  - intros k e Hk. split; [by eapply Hmax|]. simpl.
    rewrite lookup_insert_ne; [done|]. apply Hmax in Hk. lia.
  - unfold get_employee, query; simpl. by rewrite lookup_insert_eq.
  - rewrite get_balance_cascade; simpl. by rewrite lookup_insert_eq.
  - intros rows Hrows. unfold list_employees, query in *; simpl in *.
    injection Hrows as <-. by rewrite order_by_id_desc_insert_max.
Qed.

Lemma add_employee_then_listed_witness :
  (∀ k e, employees demo !! k = Some e →
          k < next_rowid (employees_seq demo) (employees demo)
          ∧ employees (add_employee "Cy" "cy@x.org" "Finance" 200 10 demo).2 !! k
            = Some e)
  ∧ get_employee (next_rowid (employees_seq demo) (employees demo))
      (add_employee "Cy" "cy@x.org" "Finance" 200 10 demo).2
    = (inr (Some (next_rowid (employees_seq demo) (employees demo),
                  Employee "Cy" "cy@x.org" "Finance" 200 10
                    (current_timestamp demo))),
       (add_employee "Cy" "cy@x.org" "Finance" 200 10 demo).2)
  ∧ get_balance (next_rowid (employees_seq demo) (employees demo))
      (add_employee "Cy" "cy@x.org" "Finance" 200 10 demo).2
    = (inr 10, (add_employee "Cy" "cy@x.org" "Finance" 200 10 demo).2)
  ∧ (∀ rows, list_employees None demo = (inr rows, demo) →
             list_employees None
               (add_employee "Cy" "cy@x.org" "Finance" 200 10 demo).2
             = (inr ((next_rowid (employees_seq demo) (employees demo),
                      Employee "Cy" "cy@x.org" "Finance" 200 10
                        (current_timestamp demo)) :: rows),
                (add_employee "Cy" "cy@x.org" "Finance" 200 10 demo).2)).
Proof.
  apply (add_employee_then_listed demo "Cy" "cy@x.org" "Finance" 200 10).
  vm_compute. reflexivity.
Defined.

(** ** Wildcards in the employee filter *)

Lemma like_leading_percent p :
  (∀ s, like p s = true) → ∀ s, like (String "%" p) s = true.
Proof.
  intros Hp s. destruct s as [|d s].
  - by rewrite like_percent_nil.
  - by rewrite like_percent_cons, Hp.
Qed.

Lemma filter_all {A} (f : A → bool) (l : list A) :
  (∀ x, f x = true) → List.filter f l = l.
Proof.
  intros Hf. induction l as [|x l IH]; simpl; [done|]. by rewrite Hf, IH.
Qed.

(** The filter is bound into the [LIKE] pattern as it is typed: searching
    for ["%"] lists every employee, in every store, exactly as searching
    with no filter does. *)
Theorem list_employees_percent (s : db) :
  list_employees (Some "%") s = list_employees None s.
Proof.
  unfold list_employees, query. do 2 f_equal.
  rewrite decide_False by discriminate. f_equal.
  apply filter_all. intros row. unfold where_like.
  assert (Hall : ∀ x, like ("%" +:+ lower "%" +:+ "%") x = true).
  { intros x. change ("%" +:+ lower "%" +:+ "%") with (String "%" (String "%" "%")).
    apply like_leading_percent, like_leading_percent, like_percent. }
  by rewrite Hall.
Qed.
